(** * C-TurtleGraphics: marker state, trail store and input translation

    A shallow embedding of [Src/sprite.c], [Src/events.c], the trail part
    of [Src/graphics.c] and the start-up code of [Src/main.c], together
    with the properties of the marker, the trail and the per-frame input
    handling.

    C [float] is IEEE-754 binary32 and C [double] is binary64; both are
    modelled with the specification floats of the Standard Library
    ([spec_float]), evaluated without excess precision
    (FLT_EVAL_METHOD = 0).  C [int] is 32 bits in two's complement and
    [size_t] is 64 bits (the LP64 data model, as on 64-bit Linux). *)

From Stdlib Require Import ZArith List String Ascii Bool Lia DecimalString.
From Stdlib Require Import Floats.SpecFloat.
Import ListNotations.
Local Open Scope Z_scope.

(** ** Floating-point formats *)

Module F32.
Definition prec : Z := 24.
Definition emax : Z := 128.

Definition add := SFadd prec emax.
Definition sub := SFsub prec emax.
Definition mul := SFmul prec emax.
Definition div := SFdiv prec emax.
Definition neg := SFopp.
Definition eqb := SFeqb.
Definition ltb := SFltb.
Definition leb := SFleb.
Definition gtb (a b : spec_float) := SFltb b a.

(** [(float)n] for an [int] n: round to nearest, ties to even. *)
Definition of_int (n : Z) : spec_float := binary_normalize prec emax n 0 false.

(** [(float)d] for a [double] d. *)
Definition of_double (d : spec_float) : spec_float :=
  match d with
  | S754_finite s m e => binary_round prec emax s m e
  | _ => d
  end.
End F32.

Module F64.
Definition prec : Z := 53.
Definition emax : Z := 1024.

Definition mul := SFmul prec emax.
Definition div := SFdiv prec emax.

(** The implicit conversion of a [float] operand to [double] (exact). *)
Definition of_float (f : spec_float) : spec_float :=
  match f with
  | S754_finite s m e => binary_round prec emax s m e
  | _ => f
  end.

(** [M_PI] of <math.h>: 0x1.921fb54442d18p+1. *)
Definition M_PI : spec_float := S754_finite false 7074237752028440 (-51).
End F64.

Definition is_nan (f : spec_float) : bool :=
  match f with S754_nan => true | _ => false end.

(** [fmodf(x, y)] of <math.h> (ISO C F.10.7.1): the exact remainder of
    x / y with the sign of x and magnitude less than |y|. *)
Definition fmodf (x y : spec_float) : spec_float :=
  match x, y with
  | S754_nan, _ | _, S754_nan => S754_nan
  | S754_infinity _, _ => S754_nan
  | _, S754_zero _ => S754_nan
  | S754_zero _, _ => x
  | S754_finite _ _ _, S754_infinity _ => x
  | S754_finite sx mx ex, S754_finite _ my ey =>
      let ez := Z.min ex ey in
      let nx := Zpos mx * 2 ^ (ex - ez) in
      let ny := Zpos my * 2 ^ (ey - ez) in
      binary_normalize F32.prec F32.emax (cond_Zopp sx (Z.rem nx ny)) ez sx
  end.

(** ** Integer types *)

Definition INT_MAX : Z := 2 ^ 31 - 1.
Definition SIZE_MAX : Z := 2 ^ 64 - 1.

(** An arithmetic result stored in an [int].  A result outside
    [-2^31, INT_MAX] is a signed overflow, which ISO C leaves undefined;
    the compilers of these targets produce the two's complement wrap,
    and so does the model. *)
Definition to_int (z : Z) : Z := (z + 2 ^ 31) mod 2 ^ 32 - 2 ^ 31.

(** Conversion to [size_t], and a result of [size_t] arithmetic: modulo
    2^64. *)
Definition to_size_t (z : Z) : Z := z mod 2 ^ 64.

(** Literals of the sources. *)
Definition f0 : spec_float := S754_zero false.
Definition f1 : spec_float := Eval vm_compute in F32.of_int 1.
Definition f2 : spec_float := Eval vm_compute in F32.of_int 2.
Definition f25 : spec_float := Eval vm_compute in F32.of_int 25.
Definition f90 : spec_float := Eval vm_compute in F32.of_int 90.
Definition f180 : spec_float := Eval vm_compute in F32.of_int 180.
Definition f200 : spec_float := Eval vm_compute in F32.of_int 200.
Definition f360 : spec_float := Eval vm_compute in F32.of_int 360.

(** ** Data model ([Include/sprite.h], [Src/graphics.c]) *)

Inductive TurnDirection := TURN_LEFT | TURN_RIGHT.

Record Sprite := mkSprite {
  x : spec_float;
  y : spec_float;
  angle : spec_float;
  turn : TurnDirection;
  pen : bool;
  r : spec_float;
  g : spec_float;
  b : spec_float
}.

Record Line := mkLine {
  x1 : spec_float; y1 : spec_float; x2 : spec_float; y2 : spec_float;
  lr : spec_float; lg : spec_float; lb : spec_float
}.

(** ** Host input events (the part of SDL's event union that
    [handle_events] inspects) *)

Inductive SDL_Keycode :=
  | SDLK_RIGHT | SDLK_LEFT | SDLK_UP
  | SDLK_d | SDLK_u
  | SDLK_1 | SDLK_2 | SDLK_3 | SDLK_4 | SDLK_5
  | SDLK_ESCAPE
  | SDLK_other (code : Z).

Inductive SDL_WindowEventID :=
  | SDL_WINDOWEVENT_RESIZED
  | SDL_WINDOWEVENT_other (id : Z).

Inductive SDL_Event :=
  | SDL_QUIT
  | SDL_KEYDOWN (sym : SDL_Keycode)
  | SDL_KEYUP (sym : SDL_Keycode)
  | SDL_WINDOWEVENT (event : SDL_WindowEventID) (data1 data2 : Z)
  | SDL_other (type : Z).

(** ** Process state

    The file-scope variables of [sprite.c], [graphics.c] and [events.c],
    SDL's queue of pending events and the text written to standard
    output.  [lines] holds the initialised prefix [lines[0 .. lineCount)]
    of the C array, so [lineCount] is its length, which is the [int] of
    that name as long as the trail has at most [INT_MAX] segments;
    [lineCapacity] is the [int] of that name. *)

Record Globals := mkGlobals {
  sprite : Sprite;
  lines : list Line;
  lineCapacity : Z;
  keyLeftPressed : bool;
  keyRightPressed : bool;
  keyUpPressed : bool;
  event_queue : list SDL_Event;
  stdout : list string
}.

Definition lineCount (st : Globals) : Z := Z.of_nat (List.length (lines st)).

Definition set_sprite (s : Sprite) (st : Globals) : Globals :=
  mkGlobals s (lines st) (lineCapacity st) (keyLeftPressed st)
            (keyRightPressed st) (keyUpPressed st) (event_queue st) (stdout st).

Definition set_lines (l : list Line) (st : Globals) : Globals :=
  mkGlobals (sprite st) l (lineCapacity st) (keyLeftPressed st)
            (keyRightPressed st) (keyUpPressed st) (event_queue st) (stdout st).

Definition set_lineCapacity (c : Z) (st : Globals) : Globals :=
  mkGlobals (sprite st) (lines st) c (keyLeftPressed st)
            (keyRightPressed st) (keyUpPressed st) (event_queue st) (stdout st).

Definition set_keyLeftPressed (k : bool) (st : Globals) : Globals :=
  mkGlobals (sprite st) (lines st) (lineCapacity st) k
            (keyRightPressed st) (keyUpPressed st) (event_queue st) (stdout st).

Definition set_keyRightPressed (k : bool) (st : Globals) : Globals :=
  mkGlobals (sprite st) (lines st) (lineCapacity st) (keyLeftPressed st)
            k (keyUpPressed st) (event_queue st) (stdout st).

Definition set_keyUpPressed (k : bool) (st : Globals) : Globals :=
  mkGlobals (sprite st) (lines st) (lineCapacity st) (keyLeftPressed st)
            (keyRightPressed st) k (event_queue st) (stdout st).

Definition set_event_queue (q : list SDL_Event) (st : Globals) : Globals :=
  mkGlobals (sprite st) (lines st) (lineCapacity st) (keyLeftPressed st)
            (keyRightPressed st) (keyUpPressed st) q (stdout st).

Definition printf (s : string) (st : Globals) : Globals :=
  mkGlobals (sprite st) (lines st) (lineCapacity st) (keyLeftPressed st)
            (keyRightPressed st) (keyUpPressed st) (event_queue st)
            (stdout st ++ [s]).

Definition set_xy (nx ny : spec_float) (s : Sprite) : Sprite :=
  mkSprite nx ny (angle s) (turn s) (pen s) (r s) (g s) (b s).

Definition set_angle (a : spec_float) (s : Sprite) : Sprite :=
  mkSprite (x s) (y s) a (turn s) (pen s) (r s) (g s) (b s).

Definition set_pen (p : bool) (s : Sprite) : Sprite :=
  mkSprite (x s) (y s) (angle s) (turn s) p (r s) (g s) (b s).

Definition set_rgb (cr cg cb : spec_float) (s : Sprite) : Sprite :=
  mkSprite (x s) (y s) (angle s) (turn s) (pen s) cr cg cb.

(** A call either returns or ends the process through [exit(code)]. *)
Inductive result (A : Type) :=
  | Ret (a : A)
  | Exit (code : Z).
Arguments Ret {A} a.
Arguments Exit {A} code.

Definition bind {A B : Type} (m : result A) (k : A -> result B) : result B :=
  match m with
  | Ret a => k a
  | Exit c => Exit c
  end.

Notation "v <- m ;; k" := (bind m (fun v => k))
  (at level 61, m at next level, right associativity).

Definition nl : string := String (ascii_of_nat 10) EmptyString.

Definition string_of_Z (n : Z) : string := NilZero.string_of_int (Z.to_int n).

(** ** The program *)

Section Program.

(** [cos] and [sin] of <math.h> on [double], and the success of the
    [realloc] call of [add_line] as a function of the requested size in
    bytes, are supplied by the C library. *)
Variable cos sin : spec_float -> spec_float.
Variable realloc_ok : Z -> bool.

(** *** [Src/sprite.c] *)

Definition MOVE_INCREMENT : spec_float := f200.

(** [sprite.angle * M_PI / 180.0f], in [double]. *)
Definition radians (a : spec_float) : spec_float :=
  F64.div (F64.mul (F64.of_float a) F64.M_PI) (F64.of_float f180).

(** The products with [cos] and [sin] are [double]; [deltaX], [deltaY]
    and everything after them are [float]. *)
Definition update_location (deltaTime : spec_float)
           (windowWidth windowHeight : Z) (st : Globals) : Globals :=
  let s := sprite st in
  let deltaX :=
    F32.of_double
      (F64.mul (F64.mul (F64.of_float MOVE_INCREMENT) (cos (radians (angle s))))
               (F64.of_float deltaTime)) in
  let deltaY :=
    F32.of_double
      (F64.mul (F64.mul (F64.of_float (F32.neg MOVE_INCREMENT))
                        (sin (radians (angle s))))
               (F64.of_float deltaTime)) in
  let newX := F32.add (x s) deltaX in
  let newY := F32.add (y s) deltaY in
  let halfWidth := f25 in
  let halfHeight := f25 in
  let newX :=
    if F32.ltb (F32.sub newX halfWidth) f0 then halfWidth
    else if F32.gtb (F32.add newX halfWidth) (F32.of_int windowWidth)
         then F32.sub (F32.of_int windowWidth) halfWidth
         else newX in
  let newY :=
    if F32.ltb (F32.sub newY halfHeight) f0 then halfHeight
    else if F32.gtb (F32.add newY halfHeight) (F32.of_int windowHeight)
         then F32.sub (F32.of_int windowHeight) halfHeight
         else newY in
  set_sprite (set_xy newX newY s) st.

Definition update_pen (pen_state : bool) (st : Globals) : Globals :=
  set_sprite (set_pen pen_state (sprite st)) st.

Definition change_color (color_option : Z) (st : Globals) : Globals :=
  match color_option with
  | 1 => printf ("Color changed to Black" ++ nl)
                (set_sprite (set_rgb f0 f0 f0 (sprite st)) st)
  | 2 => printf ("Color changed to Blue" ++ nl)
                (set_sprite (set_rgb f0 f0 f1 (sprite st)) st)
  | 3 => printf ("Color changed to Red" ++ nl)
                (set_sprite (set_rgb f1 f0 f0 (sprite st)) st)
  | 4 => printf ("Color changed to Green" ++ nl)
                (set_sprite (set_rgb f0 f1 f0 (sprite st)) st)
  | 5 => printf ("Color changed to Yellow" ++ nl)
                (set_sprite (set_rgb f1 f1 f0 (sprite st)) st)
  | _ => printf ("Invalid color option" ++ nl) st
  end.

(** *** [Src/graphics.c]: the trail store *)

(** Seven [GLfloat] of four bytes. *)
Definition sizeof_Line : Z := 28.

(** When the array is full its capacity doubles, in [int], and [realloc]
    is asked for [lineCapacity * sizeof(Line)] bytes, a product in
    [size_t]; a failed [realloc] ends the process with [exit(1)].
    [lines[lineCount]] is written and [lineCount] incremented: the
    segment is added at the end. *)
Definition add_line (ax1 ay1 ax2 ay2 : spec_float) (st : Globals)
  : result Globals :=
  st <- (if lineCount st >=? lineCapacity st then
           let st := set_lineCapacity (to_int (lineCapacity st * 2)) st in
           if realloc_ok (to_size_t (to_size_t (lineCapacity st) * sizeof_Line))
           then Ret st
           else Exit 1
         else Ret st) ;;
  Ret (set_lines
         (lines st ++ [mkLine ax1 ay1 ax2 ay2
                              (r (sprite st)) (g (sprite st)) (b (sprite st))])
         st).

(** The two [%s] arguments of the status text of [render_scene]. *)
Definition pen_name (s : Sprite) : string :=
  if pen s then "Down" else "Up".

Definition color_name (s : Sprite) : string :=
  if F32.eqb (r s) f0 && F32.eqb (g s) f0 && F32.eqb (b s) f0 then "Black"
  else if F32.eqb (r s) f0 && F32.eqb (g s) f0 && F32.eqb (b s) f1 then "Blue"
  else if F32.eqb (r s) f1 && F32.eqb (g s) f0 && F32.eqb (b s) f0 then "Red"
  else if F32.eqb (r s) f0 && F32.eqb (g s) f1 && F32.eqb (b s) f0 then "Green"
  else if F32.eqb (r s) f1 && F32.eqb (g s) f1 && F32.eqb (b s) f0 then "Yellow"
  else "Custom".

(** *** [Src/events.c] *)

Definition ROTATION_INCREMENT : spec_float := f90.

(** One pass of the [switch] in the polling loop: [None] is the
    [return false] of the SDL_QUIT and SDLK_ESCAPE cases. *)
Definition dispatch (evt : SDL_Event) (win : Z * Z) (st : Globals)
  : option ((Z * Z) * Globals) :=
  match evt with
  | SDL_QUIT => None
  | SDL_KEYDOWN sym =>
      match sym with
      | SDLK_RIGHT => Some (win, set_keyRightPressed true st)
      | SDLK_LEFT => Some (win, set_keyLeftPressed true st)
      | SDLK_UP => Some (win, set_keyUpPressed true st)
      | SDLK_d => Some (win, update_pen true st)
      | SDLK_u => Some (win, update_pen false st)
      | SDLK_1 => Some (win, change_color 1 st)
      | SDLK_2 => Some (win, change_color 2 st)
      | SDLK_3 => Some (win, change_color 3 st)
      | SDLK_4 => Some (win, change_color 4 st)
      | SDLK_5 => Some (win, change_color 5 st)
      | SDLK_ESCAPE => None
      | SDLK_other _ => Some (win, st)
      end
  | SDL_KEYUP sym =>
      match sym with
      | SDLK_RIGHT => Some (win, set_keyRightPressed false st)
      | SDLK_LEFT => Some (win, set_keyLeftPressed false st)
      | SDLK_UP => Some (win, set_keyUpPressed false st)
      | _ => Some (win, st)
      end
  | SDL_WINDOWEVENT event data1 data2 =>
      match event with
      | SDL_WINDOWEVENT_RESIZED =>
          Some ((data1, data2),
                printf ("Window resized to " ++ string_of_Z data1 ++ " x "
                          ++ string_of_Z data2 ++ nl) st)
      | SDL_WINDOWEVENT_other _ => Some (win, st)
      end
  | SDL_other _ => Some (win, st)
  end.

(** [while (SDL_PollEvent(&evt) != 0) switch ...]: every polled event
    leaves the queue; the boolean is false when the loop was left by
    [return false]. *)
Fixpoint poll_loop (q : list SDL_Event) (win : Z * Z) (st : Globals)
  : bool * (Z * Z) * Globals :=
  match q with
  | [] => (true, win, set_event_queue [] st)
  | evt :: q' =>
      match dispatch evt win st with
      | None => (false, win, set_event_queue q' st)
      | Some (win', st') => poll_loop q' win' st'
      end
  end.

(** The blocks after the loop.  [// Update rotation], first [if]. *)
Definition rotate_left (deltaTime : spec_float) (st : Globals) : Globals :=
  if keyLeftPressed st then
    set_sprite
      (set_angle
         (fmodf (F32.add (angle (sprite st))
                         (F32.mul ROTATION_INCREMENT deltaTime)) f360)
         (sprite st)) st
  else st.

(** [// Update rotation], second [if]. *)
Definition rotate_right (deltaTime : spec_float) (st : Globals) : Globals :=
  if keyRightPressed st then
    set_sprite
      (set_angle
         (fmodf (F32.add (F32.sub (angle (sprite st))
                                  (F32.mul ROTATION_INCREMENT deltaTime))
                         f360) f360)
         (sprite st)) st
  else st.

(** [// Update position]. *)
Definition move_forward (deltaTime : spec_float) (win : Z * Z) (st : Globals)
  : result Globals :=
  if keyUpPressed st then
    let previous_x := x (sprite st) in
    let previous_y := y (sprite st) in
    let st := update_location deltaTime (fst win) (snd win) st in
    if pen (sprite st) then
      add_line previous_x previous_y (x (sprite st)) (y (sprite st)) st
    else Ret st
  else Ret st.

(** [win] is the pair the pointers [windowWidth] and [windowHeight]
    point to; its value at the return is part of the result. *)
Definition handle_events (deltaTime : spec_float) (win : Z * Z) (st : Globals)
  : result (bool * (Z * Z) * Globals) :=
  let '(continue, win, st) := poll_loop (event_queue st) win st in
  if continue then
    let st := rotate_left deltaTime st in
    let st := rotate_right deltaTime st in
    st <- move_forward deltaTime win st ;;
    Ret (true, win, st)
  else Ret (false, win, st).

End Program.

(** *** [Src/main.c]: start-up *)

Definition WINDOW_WIDTH : Z := 800.
Definition WINDOW_HEIGHT : Z := 800.

(** What the start-up calls into SDL, SDL_image, SDL_ttf and the
    allocator return: the [int] results of [SDL_Init], [IMG_Init] and
    [TTF_Init], and for the others whether the pointer or [bool]
    returned is non-zero. *)
Record InitEnv := mkInitEnv {
  SDL_Init : Z;
  SDL_CreateWindow_ok : bool;
  SDL_GL_CreateContext_ok : bool;
  IMG_Init : Z;
  TTF_Init : Z;
  init_font_ok : bool;
  malloc_ok : bool;
  load_sprite_ok : bool
}.

Definition IMG_INIT_PNG : Z := 2.

(** The file-scope variables as the C start-up leaves them: objects with
    static storage are zero, [lineCapacity] is 50, [lineCount] is 0. *)
Definition static_init : Globals :=
  mkGlobals (mkSprite f0 f0 f0 TURN_LEFT false f0 f0 f0) [] 50
            false false false [] [].

(** The allocation at the end of [setup_opengl]. *)
Definition setup_opengl (env : InitEnv) (windowWidth windowHeight : Z)
           (st : Globals) : result Globals :=
  if malloc_ok env then Ret st else Exit 1.

(** [main] up to the first iteration of its loop: [Exit 1] stands for
    both [return 1] and [exit(1)].  The tests are those of the source:
    [SDL_Init(...) > 0], [!window], [!glContext],
    [!(IMG_Init(imgFlags) & imgFlags)], [TTF_Init() == -1],
    [!init_font(...)] and [!load_sprite(...)]. *)
Definition main_startup (env : InitEnv) : result ((Z * Z) * Globals) :=
  let st := static_init in
  let windowWidth := WINDOW_WIDTH in
  let windowHeight := WINDOW_HEIGHT in
  if SDL_Init env >? 0 then Exit 1 else
  if negb (SDL_CreateWindow_ok env) then Exit 1 else
  if negb (SDL_GL_CreateContext_ok env) then Exit 1 else
  let imgFlags := IMG_INIT_PNG in
  if Z.land (IMG_Init env) imgFlags =? 0 then Exit 1 else
  if TTF_Init env =? -1 then Exit 1 else
  if negb (init_font_ok env) then Exit 1 else
  st <- setup_opengl env windowWidth windowHeight st ;;
  if negb (load_sprite_ok env) then Exit 1 else
  let s := sprite st in
  let s := set_xy (F32.div (F32.of_int windowWidth) f2)
                  (F32.div (F32.of_int windowHeight) f2) s in
  let s := set_angle f0 s in
  let s := set_pen false s in
  let s := set_rgb f0 f0 f0 s in
  Ret ((windowWidth, windowHeight), set_sprite s st).

(** Between two calls of [handle_events] the host appends the events
    that arrived in the meantime to its queue. *)
Definition enqueue (evs : list SDL_Event) (st : Globals) : Globals :=
  set_event_queue (event_queue st ++ evs) st.

(** The states of the main loop: the one start-up leaves, and the one
    each call of [handle_events] returns; [render_scene] runs on the
    latter, also on the last one, for which [running] is false.  The
    relation does not stop there: it contains every state of the loop,
    and an invariant of it is an invariant of the loop. *)
Inductive reachable (cos sin : spec_float -> spec_float)
          (realloc_ok : Z -> bool) : (Z * Z) * Globals -> Prop :=
  | reach_start env ws :
      main_startup env = Ret ws ->
      reachable cos sin realloc_ok ws
  | reach_frame win st evs deltaTime running win' st' :
      reachable cos sin realloc_ok (win, st) ->
      handle_events cos sin realloc_ok deltaTime win (enqueue evs st)
        = Ret (running, win', st') ->
      reachable cos sin realloc_ok (win', st').

(** ** Specification-side definitions *)

Definition RGB : Type := (spec_float * spec_float * spec_float)%type.

(** The palette as the specification lists it. *)
Definition black : RGB := (f0, f0, f0).
Definition blue : RGB := (f0, f0, f1).
Definition red : RGB := (f1, f0, f0).
Definition green : RGB := (f0, f1, f0).
Definition yellow : RGB := (f1, f1, f0).

Definition palette (opt : Z) : option RGB :=
  match opt with
  | 1 => Some black
  | 2 => Some blue
  | 3 => Some red
  | 4 => Some green
  | 5 => Some yellow
  | _ => None
  end.

Definition rgb (s : Sprite) : RGB :=
  (r s, g s, b s).

(** Component-wise [==] of C on two colour triples. *)
Definition rgb_eqb (c d : RGB) : bool :=
  let '(cr, cg, cb) := c in
  let '(dr, dg, db) := d in
  F32.eqb cr dr && F32.eqb cg dg && F32.eqb cb db.

Definition in_palette (c : RGB) : Prop :=
  c = black \/ c = blue \/ c = red \/ c = green \/ c = yellow.

(** A quit request: the quit event or the Escape key going down. *)
Definition is_quit (evt : SDL_Event) : bool :=
  match evt with
  | SDL_QUIT => true
  | SDL_KEYDOWN SDLK_ESCAPE => true
  | _ => false
  end.

(** The edge-triggered transition of one event; a quit request has none. *)
Definition apply_event (ws : (Z * Z) * Globals) (evt : SDL_Event)
  : (Z * Z) * Globals :=
  match dispatch evt (fst ws) (snd ws) with
  | Some ws' => ws'
  | None => ws
  end.

Definition apply_events (q : list SDL_Event) (ws : (Z * Z) * Globals)
  : (Z * Z) * Globals :=
  fold_left apply_event q ws.

Definition no_quit (q : list SDL_Event) : bool :=
  forallb (fun evt => negb (is_quit evt)) q.

(** The drain of the specification: every pending event is applied and
    a quit request is only noted. *)
Definition drain_all (q : list SDL_Event) (win : Z * Z) (st : Globals)
  : bool * (Z * Z) * Globals :=
  let '(win', st') := apply_events q (win, st) in
  (existsb is_quit q, win', set_event_queue [] st').

Definition handle_events_drain_all (cos sin : spec_float -> spec_float)
           (realloc_ok : Z -> bool) (deltaTime : spec_float) (win : Z * Z)
           (st : Globals) : result (bool * (Z * Z) * Globals) :=
  let '(quit, win, st) := drain_all (event_queue st) win st in
  if quit then Ret (false, win, st)
  else
    st <- move_forward cos sin realloc_ok deltaTime win
            (rotate_right deltaTime (rotate_left deltaTime st)) ;;
    Ret (true, win, st).

(** 1.0 as a [double]. *)
Definition d1 : spec_float := Eval vm_compute in F64.of_float f1.

(** Instances of the C library for running the program on concrete
    inputs: [cos] and [sin] as ISO C fixes them at zero (F.10.1.5,
    F.10.1.6: cos(+-0) is 1, sin(+-0) is +-0), and an allocator that
    never fails. *)

Definition cos_at_zero (d : spec_float) : spec_float :=
  match d with
  | S754_zero _ => d1
  | _ => S754_nan
  end.

Definition sin_at_zero (d : spec_float) : spec_float :=
  match d with
  | S754_zero _ => d
  | _ => S754_nan
  end.

Definition realloc_succeeds (size : Z) : bool := true.

(** An allocator that refuses every request. *)
Definition realloc_fails (size : Z) : bool := false.

(** The trail array has room, or it can grow: the doubled capacity is
    an [int] and [realloc] grants the bytes for it. *)
Definition room_or_grows (realloc_ok : Z -> bool) (st : Globals) : Prop :=
  lineCount st < lineCapacity st
  \/ (0 <= lineCapacity st /\ lineCapacity st * 2 <= INT_MAX
      /\ realloc_ok (lineCapacity st * 2 * sizeof_Line) = true).

(** A state with another heading; more literals. *)
Definition with_heading (h : spec_float) (st : Globals) : Globals :=
  set_sprite (set_angle h (sprite st)) st.

Definition f0_25 : spec_float := Eval vm_compute in F32.div f1 (F32.of_int 4).
Definition f347_5 : spec_float :=
  Eval vm_compute in F32.div (F32.of_int 695) f2.

(** The displacement of the specification: speed times the cosine
    (minus the sine) of the heading, converted to radians, times the
    frame time; computed in [double] and stored in a [float]. *)
Definition displacement_x (cos : spec_float -> spec_float)
           (heading deltaTime : spec_float) : spec_float :=
  F32.of_double
    (F64.mul (F64.mul (F64.of_float f200) (cos (radians heading)))
             (F64.of_float deltaTime)).

Definition displacement_y (sin : spec_float -> spec_float)
           (heading deltaTime : spec_float) : spec_float :=
  F32.of_double
    (F64.mul (F64.mul (F64.of_float (F32.neg f200)) (sin (radians heading)))
             (F64.of_float deltaTime)).

(** Clamping of one coordinate against [0, limit] with the half extent
    of the sprite. *)
Definition clamp (limit : Z) (v : spec_float) : spec_float :=
  if F32.ltb (F32.sub v f25) f0 then f25
  else if F32.gtb (F32.add v f25) (F32.of_int limit)
       then F32.sub (F32.of_int limit) f25
       else v.

Definition f400 : spec_float := Eval vm_compute in F32.of_int 400.
Definition f600 : spec_float := Eval vm_compute in F32.of_int 600.
Definition f775 : spec_float := Eval vm_compute in F32.of_int 775.

(** A start-up in which every call succeeds ([SDL_Init] and [TTF_Init]
    return 0, [IMG_Init] returns the PNG flag), and the state it
    leaves. *)
Definition init_ok : InitEnv :=
  mkInitEnv 0 true true IMG_INIT_PNG 0 true true true.

Definition started : Globals :=
  set_sprite (set_xy f400 f400 (sprite static_init)) static_init.

(** The marker of the scenario: at (400, 400), heading 0, pen down, Up
    held, black, nothing drawn yet. *)
Definition scenario_state : Globals :=
  set_keyUpPressed true (update_pen true started).

(** The marker against the right edge of the 800 x 800 window. *)
Definition wall_state : Globals :=
  set_sprite (set_xy f775 f400 (sprite scenario_state)) scenario_state.

(** The marker of the scenario with a trail of 50 segments, which fills
    the array of the start-up. *)
Definition full_state : Globals :=
  set_lines (repeat (mkLine f400 f400 f400 f400 f0 f0 f0) 50) scenario_state.

(** The half-extent box of the marker lies in the window, as the program
    tests it: in single precision, 0 <= x - 25, x + 25 <= (float)w, and
    the same with y and h. *)
Definition box_inside (w h : Z) (s : Sprite) : bool :=
  F32.leb f0 (F32.sub (x s) f25)
  && F32.leb (F32.add (x s) f25) (F32.of_int w)
  && F32.leb f0 (F32.sub (y s) f25)
  && F32.leb (F32.add (y s) f25) (F32.of_int h).

(** The position before clamping. *)
Definition candidate_x (cos : spec_float -> spec_float) (deltaTime : spec_float)
           (s : Sprite) : spec_float :=
  F32.add (x s) (displacement_x cos (angle s) deltaTime).

Definition candidate_y (sin : spec_float -> spec_float) (deltaTime : spec_float)
           (s : Sprite) : spec_float :=
  F32.add (y s) (displacement_y sin (angle s) deltaTime).

(** *** [Src/main.c]: the loop *)

Definition f1000 : spec_float := Eval vm_compute in F32.of_int 1000.

(** [(float)(currentTime - lastTime) / 1000.0f]: the difference of two
    [Uint32] wraps modulo 2^32. *)
Definition frame_time (lastTime currentTime : Z) : spec_float :=
  F32.div (F32.of_int ((currentTime - lastTime) mod 2 ^ 32)) f1000.

(** What the host supplies to one iteration: the value of
    [SDL_GetTicks()] and the events that arrived since the last one. *)
Record Frame := mkFrame {
  ticks : Z;
  arrived : list SDL_Event
}.

(** The iterations of [while (running)] over the frames supplied so
    far.  The result carries [running], [lastTime], the window size and
    the globals; [running] is still true when the supplied frames ran
    out before a quit request.  [render_scene] and the buffer swap do
    not write the globals. *)
Fixpoint main_loop (cos sin : spec_float -> spec_float)
         (realloc_ok : Z -> bool) (frames : list Frame) (lastTime : Z)
         (win : Z * Z) (st : Globals)
  : result (bool * Z * (Z * Z) * Globals) :=
  match frames with
  | [] => Ret (true, lastTime, win, st)
  | f :: frames' =>
      let currentTime := ticks f in
      let deltaTime := frame_time lastTime currentTime in
      let lastTime := currentTime in
      res <- handle_events cos sin realloc_ok deltaTime win
               (enqueue (arrived f) st) ;;
      let '(running, win, st) := res in
      if running then main_loop cos sin realloc_ok frames' lastTime win st
      else Ret (false, lastTime, win, st)
  end.

(** [main]: the exit status, when the process ends within the supplied
    frames. *)
Definition main (cos sin : spec_float -> spec_float) (realloc_ok : Z -> bool)
           (env : InitEnv) (frames : list Frame) : option Z :=
  match main_startup env with
  | Exit code => Some code
  | Ret (win, st) =>
      match main_loop cos sin realloc_ok frames 0 win st with
      | Exit code => Some code
      | Ret (true, _, _, _) => None
      | Ret (false, _, _, _) => Some 0
      end
  end.

(** The last event of a kind in a queue. *)
Definition is_UP (k : SDL_Keycode) : bool :=
  match k with SDLK_UP => true | _ => false end.

Definition is_LEFT (k : SDL_Keycode) : bool :=
  match k with SDLK_LEFT => true | _ => false end.

Definition is_RIGHT (k : SDL_Keycode) : bool :=
  match k with SDLK_RIGHT => true | _ => false end.

(** [Some true] when the last event of the key is a press, [Some false]
    when it is a release, [None] when the queue has no event of it. *)
Definition last_key (is_k : SDL_Keycode -> bool) (q : list SDL_Event)
  : option bool :=
  fold_left (fun acc evt =>
               match evt with
               | SDL_KEYDOWN k => if is_k k then Some true else acc
               | SDL_KEYUP k => if is_k k then Some false else acc
               | _ => acc
               end) q None.

(** The last pen command: [D] is [Some true], [U] is [Some false]. *)
Definition last_pen (q : list SDL_Event) : option bool :=
  fold_left (fun acc evt =>
               match evt with
               | SDL_KEYDOWN SDLK_d => Some true
               | SDL_KEYDOWN SDLK_u => Some false
               | _ => acc
               end) q None.

(** The last size a resize event reported. *)
Definition last_resize (q : list SDL_Event) : option (Z * Z) :=
  fold_left (fun acc evt =>
               match evt with
               | SDL_WINDOWEVENT SDL_WINDOWEVENT_RESIZED w h => Some (w, h)
               | _ => acc
               end) q None.

(** The palette entry of the last colour key. *)
Definition last_color (q : list SDL_Event) : option RGB :=
  fold_left (fun acc evt =>
               match evt with
               | SDL_KEYDOWN SDLK_1 => palette 1
               | SDL_KEYDOWN SDLK_2 => palette 2
               | SDL_KEYDOWN SDLK_3 => palette 3
               | SDL_KEYDOWN SDLK_4 => palette 4
               | SDL_KEYDOWN SDLK_5 => palette 5
               | _ => acc
               end) q None.

(** *** [Src/graphics.c]: the status overlay of [render_scene] *)

Definition f10 : spec_float := Eval vm_compute in F32.of_int 10.

(** One textured quad of the overlay: the texture and the corners
    ([textX], [textY]) and ([textX + lineWidth], [textY + lineHeight]). *)
Record TextQuad := mkTextQuad {
  texture : Z;
  quad_left : spec_float;
  quad_top : spec_float;
  quad_right : spec_float;
  quad_bottom : spec_float
}.

(** [strtok(statusText, "\n")] and [strtok(NULL, "\n")] until NULL: the
    maximal runs of characters other than the newline, none of them
    empty.  [token] is the run read so far. *)
Fixpoint strtok_all (s : string) (token : string) : list string :=
  match s with
  | EmptyString =>
      match token with
      | EmptyString => []
      | _ => [token]
      end
  | String c s' =>
      if Ascii.eqb c (ascii_of_nat 10) then
        match token with
        | EmptyString => strtok_all s' EmptyString
        | _ => token :: strtok_all s' EmptyString
        end
      else strtok_all s' (token ++ String c EmptyString)
  end.

Section Overlay.

(** The conversion ["%.1f"] of [sprintf], and [render_text] of
    [Src/text.c]: the texture name, 0 on failure, with the width and
    height of the rendered line. *)
Variable fmt : spec_float -> string.
Variable render_text : string -> Z * Z * Z.

(** The text [sprintf] writes to [statusText]. *)
Definition status_text (s : Sprite) : string :=
  "Position: (" ++ fmt (x s) ++ ", " ++ fmt (y s) ++ ")" ++ nl
  ++ "Angle: " ++ fmt (angle s) ++ " degrees" ++ nl
  ++ "Pen: " ++ pen_name s ++ nl
  ++ "Line Color: " ++ color_name s.

(** The lines stored in [linesText]: at most ten tokens. *)
Definition split_lines (text : string) : list string :=
  firstn 10 (strtok_all text EmptyString).

(** [// Render each line]: a line whose texture is 0 is not drawn and
    does not advance [textY]. *)
Fixpoint text_loop (linesText : list string) (textY : spec_float)
  : list TextQuad :=
  match linesText with
  | [] => []
  | line :: rest =>
      let '(lineTextureID, lineWidth, lineHeight) := render_text line in
      if negb (lineTextureID =? 0) then
        let textX := f10 in
        mkTextQuad lineTextureID textX textY
                   (F32.add textX (F32.of_int lineWidth))
                   (F32.add textY (F32.of_int lineHeight))
        :: text_loop rest (F32.add textY (F32.add (F32.of_int lineHeight) f2))
      else text_loop rest textY
  end.

(** The text quads of one [render_scene]. *)
Definition render_overlay (s : Sprite) : list TextQuad :=
  text_loop (split_lines (status_text s)) f10.

End Overlay.

(** No newline in a string. *)
Fixpoint no_newline (s : string) : bool :=
  match s with
  | EmptyString => true
  | String c s' => negb (Ascii.eqb c (ascii_of_nat 10)) && no_newline s'
  end.

(** The lines [render_text] renders, and the vertical positions of the
    quads in integers. *)
Definition renders (render_text : string -> Z * Z * Z) (line : string) : bool :=
  negb (fst (fst (render_text line)) =? 0).

Definition line_height (render_text : string -> Z * Z * Z) (line : string) : Z :=
  snd (render_text line).

Fixpoint rows (render_text : string -> Z * Z * Z) (linesText : list string)
         (textY : Z) : list (Z * Z) :=
  match linesText with
  | [] => []
  | line :: rest =>
      if renders render_text line then
        (textY, textY + line_height render_text line)
        :: rows render_text rest (textY + line_height render_text line + 2)
      else rows render_text rest textY
  end.

(** A [render_text] for running the overlay: every line is 80 wide and
    14 high, and the pen line fails to render. *)
Definition sample_render_text (line : string) : Z * Z * Z :=
  (if String.eqb line "Pen: Up" then 0 else 7, 80, 14).

Definition sample_lines : list string :=
  [ "Position: (0.0, 0.0)"%string; "Angle: 0.0 degrees"%string;
    "Pen: Up"%string; "Line Color: Black"%string ].

(** The single-precision representation of a positive integer below
    2^24: its binary digits, shifted to a 24-bit mantissa. *)
Definition size (a : positive) : Z := Zpos (digits2_pos a).

Definition Fpos (a : positive) : spec_float :=
  S754_finite false (Z.to_pos (Zpos a * 2 ^ (24 - size a))) (size a - 24).

(** ** Predicates of the further properties *)

(** What the polling loop leaves alone: position, heading, trail and
    capacity. *)
Definition at_rest (st st' : Globals) : Prop :=
  x (sprite st') = x (sprite st)
  /\ y (sprite st') = y (sprite st)
  /\ angle (sprite st') = angle (sprite st)
  /\ lines st' = lines st
  /\ lineCapacity st' = lineCapacity st.

(** The key flags, the pen and the colour as a call's level-triggered
    blocks leave them: untouched. *)
Definition same_controls (st st' : Globals) : Prop :=
  keyLeftPressed st' = keyLeftPressed st
  /\ keyRightPressed st' = keyRightPressed st
  /\ keyUpPressed st' = keyUpPressed st
  /\ pen (sprite st') = pen (sprite st)
  /\ rgb (sprite st') = rgb (sprite st)
  /\ event_queue st' = event_queue st
  /\ stdout st' = stdout st.

(** The trail fits its array, whose capacity is 50 doubled some number
    of times, at most 25 times: 50 * 2^25 = 1677721600 is the last of
    these numbers below [INT_MAX]. *)
Definition trail_fits (st : Globals) : Prop :=
  lineCount st <= lineCapacity st
  /\ exists k : nat, (k <= 25)%nat /\ lineCapacity st = 50 * 2 ^ Z.of_nat k.

Definition resolve {A : Type} (last : option A) (before : A) : A :=
  match last with
  | Some a => a
  | None => before
  end.

(** The edge-triggered state after a queue without quit requests. *)
Definition last_wins (win : Z * Z) (st : Globals) (q : list SDL_Event)
           (ws' : (Z * Z) * Globals) : Prop :=
  keyUpPressed (snd ws') = resolve (last_key is_UP q) (keyUpPressed st)
  /\ keyLeftPressed (snd ws') = resolve (last_key is_LEFT q) (keyLeftPressed st)
  /\ keyRightPressed (snd ws')
     = resolve (last_key is_RIGHT q) (keyRightPressed st)
  /\ pen (sprite (snd ws')) = resolve (last_pen q) (pen (sprite st))
  /\ rgb (sprite (snd ws')) = resolve (last_color q) (rgb (sprite st))
  /\ fst ws' = resolve (last_resize q) win.

(** Zero, a positive number or plus infinity. *)
Definition is_nonneg (f : spec_float) : bool :=
  match f with
  | S754_zero _ => true
  | S754_finite false _ _ => true
  | S754_infinity false => true
  | _ => false
  end.



(** Zero or a finite number. *)
Definition is_finite (f : spec_float) : bool :=
  match f with
  | S754_zero _ | S754_finite _ _ _ => true
  | _ => false
  end.

(** The value of a finite number times 2^1200, an integer for every
    [float] and [double]. *)
Definition scaled (f : spec_float) : Z :=
  match f with
  | S754_finite s m e => cond_Zopp s (Zpos m * 2 ^ (e + 1200))
  | _ => 0
  end.

(** [rad] is [degrees] times pi / 180 = 0.0174532925199432957..., with
    an error of at most 10^-17 times [degrees]:
    | rad - 0.017453292519943295 degrees | <= 10^-17 | degrees |;
    of an infinite angle it is that infinity, and of NaN it is NaN. *)
Definition is_radians_of (degrees rad : spec_float) : Prop :=
  match degrees with
  | S754_nan => rad = S754_nan
  | S754_infinity s => rad = S754_infinity s
  | _ =>
      is_finite rad = true
      /\ Z.abs (2 * 10 ^ 17 * scaled rad - 3490658503988659 * scaled degrees)
         <= 2 * Z.abs (scaled degrees)
  end.

(** The displacement of the specification for a heading given in
    radians: speed times the cosine (minus the sine) of the heading,
    times the frame time; computed in [double] and stored in a
    [float]. *)
Definition advance_dx (cos : spec_float -> spec_float)
           (rad deltaTime : spec_float) : spec_float :=
  F32.of_double
    (F64.mul (F64.mul (F64.of_float f200) (cos rad)) (F64.of_float deltaTime)).

Definition advance_dy (sin : spec_float -> spec_float)
           (rad deltaTime : spec_float) : spec_float :=
  F32.of_double
    (F64.mul (F64.mul (F64.of_float (F32.neg f200)) (sin rad))
             (F64.of_float deltaTime)).

(** ** Rounding of representable values *)

Section Rounding.
Variable prec emax : Z.

Lemma iter_pos_iter {A} (f : A -> A) p : forall a, iter_pos f p a = Pos.iter f a p.
Proof.
  induction p as [p IH|p IH|]; intros a; simpl.
  - rewrite !IH, !Pos.iter_swap. reflexivity.
  - rewrite !IH. reflexivity.
  - reflexivity.
Qed.

Lemma Zpos_iter_xO p k : Zpos (Pos.iter xO p k) = Zpos p * 2 ^ Zpos k.
Proof.
  induction k as [|k IH] using Pos.peano_ind.
  - simpl. lia.
  - rewrite Pos.iter_succ, Pos2Z.inj_succ, Z.pow_succ_r by lia.
    rewrite Pos2Z.inj_xO, IH. lia.
Qed.

Lemma shr_iter_xO q k :
  iter_pos shr_1 k (Build_shr_record (Zpos (Pos.iter xO q k)) false false)
  = Build_shr_record (Zpos q) false false.
Proof.
  rewrite iter_pos_iter.
  induction k as [|k IH] using Pos.peano_ind.
  - reflexivity.
  - rewrite Pos.iter_succ_r, Pos.iter_succ. simpl. exact IH.
Qed.

Lemma digits2_pos_size p : digits2_pos p = Pos.size p.
Proof. induction p; simpl; congruence. Qed.

Lemma digits2_pos_log2 p : Zpos (digits2_pos p) = Z.succ (Z.log2 (Zpos p)).
Proof.
  rewrite digits2_pos_size.
  destruct p; simpl; rewrite ?Pos2Z.inj_succ; reflexivity.
Qed.

Lemma binary_round_aux_canonical s m0 e0 :
  bounded prec emax m0 e0 = true ->
  binary_round_aux prec emax s (Zpos m0) e0 loc_Exact = S754_finite s m0 e0.
Proof.
  unfold bounded, canonical_mantissa. intros B.
  apply andb_prop in B. destruct B as [C L].
  apply Z.eqb_eq in C.
  unfold binary_round_aux, shr_fexp.
  cbn [Zdigits2]. rewrite C, Z.sub_diag.
  cbn [shr shr_record_of_loc loc_of_shr_record round_nearest_even shr_m Zdigits2].
  rewrite C, Z.sub_diag. cbn [shr shr_m].
  rewrite L. reflexivity.
Qed.

Lemma digits_scaled m m0 k :
  0 <= k -> Zpos m = Zpos m0 * 2 ^ k ->
  Zpos (digits2_pos m) = Zpos (digits2_pos m0) + k.
Proof.
  intros Hk E. rewrite !digits2_pos_log2, E.
  rewrite Z.log2_mul_pow2 by lia. lia.
Qed.

(** Rounding a value that the format represents returns its
    representation. *)
Lemma binary_round_exact s m e m0 e0 :
  bounded prec emax m0 e0 = true ->
  (e <= e0 /\ Zpos m = Zpos m0 * 2 ^ (e0 - e))
  \/ (e0 <= e /\ Zpos m0 = Zpos m * 2 ^ (e - e0)) ->
  binary_round prec emax s m e = S754_finite s m0 e0.
Proof.
  intros B R.
  assert (fexp prec emax (Zpos (digits2_pos m) + e) = e0) as F.
  { pose proof B as B'. unfold bounded, canonical_mantissa in B'.
    apply andb_prop in B'. destruct B' as [C _]. apply Z.eqb_eq in C.
    etransitivity; [|exact C]. f_equal.
    destruct R as [[L E]|[L E]].
    - rewrite (digits_scaled m m0 (e0 - e)) by (lia || assumption). lia.
    - rewrite (digits_scaled m0 m (e - e0)) by (lia || assumption). lia. }
  unfold binary_round. rewrite F. unfold shl_align.
  destruct (e0 - e) as [|k|k] eqn:D.
  - assert (m = m0) as ->.
    { destruct R as [[_ E]|[_ E]].
      - simpl in E. lia.
      - replace (e - e0) with 0 in E by lia. simpl in E. lia. }
    replace e with e0 by lia. apply binary_round_aux_canonical. exact B.
  - destruct R as [[_ E]|[L _]]; [|lia].
    unfold binary_round_aux, shr_fexp. cbn [Zdigits2].
    rewrite F, D. cbn [shr shr_record_of_loc].
    assert (m = Pos.iter xO m0 k) as ->.
    { apply Pos2Z.inj. rewrite Zpos_iter_xO. exact E. }
    rewrite shr_iter_xO.
    cbn [shr shr_record_of_loc loc_of_shr_record round_nearest_even shr_m Zdigits2].
    replace (e + Zpos k) with e0 by lia.
    pose proof B as B'. unfold bounded, canonical_mantissa in B'.
    apply andb_prop in B'. destruct B' as [C Le]. apply Z.eqb_eq in C.
    rewrite C, Z.sub_diag. cbn [shr shr_m]. rewrite Le. reflexivity.
  - destruct R as [[L _]|[_ E]]; [lia|].
    replace (e - e0) with (Zpos k) in E by lia.
    assert (Pos.iter xO m k = m0) as ->.
    { apply Pos2Z.inj. rewrite Zpos_iter_xO. symmetry. exact E. }
    apply binary_round_aux_canonical. exact B.
Qed.
End Rounding.

(** ** Integers in single precision *)

Section Integers32.
Lemma size_range a : Zpos a < 2 ^ 24 -> 1 <= size a <= 24.
Proof.
  intros H. unfold size. rewrite digits2_pos_log2.
  pose proof (Z.log2_nonneg (Zpos a)).
  assert (Z.log2 (Zpos a) < 24) by (apply Z.log2_lt_pow2; lia).
  lia.
Qed.

Lemma size_le a b : (a <= b)%positive -> size a <= size b.
Proof.
  intros H. unfold size. rewrite !digits2_pos_log2.
  assert (Z.log2 (Zpos a) <= Z.log2 (Zpos b)) by (apply Z.log2_le_mono; lia).
  lia.
Qed.

Lemma pow2_pos k : 0 <= k -> 0 < 2 ^ k.
Proof. intros. apply Z.pow_pos_nonneg; lia. Qed.

Lemma scale_scale n i j : 0 <= i -> 0 <= j -> n * 2 ^ i * 2 ^ j = n * 2 ^ (i + j).
Proof. intros. rewrite Z.pow_add_r by lia. ring. Qed.

Lemma Zpos_mant a :
  Zpos a < 2 ^ 24 ->
  Zpos (Z.to_pos (Zpos a * 2 ^ (24 - size a))) = Zpos a * 2 ^ (24 - size a).
Proof.
  intros H. pose proof (size_range a H).
  apply Z2Pos.id. pose proof (pow2_pos (24 - size a)). nia.
Qed.

Lemma Fpos_bounded a :
  Zpos a < 2 ^ 24 ->
  bounded 24 128 (Z.to_pos (Zpos a * 2 ^ (24 - size a))) (size a - 24) = true.
Proof.
  intros H. pose proof (size_range a H) as S.
  unfold bounded, canonical_mantissa. apply andb_true_intro. split.
  - apply Z.eqb_eq.
    rewrite (digits_scaled _ a (24 - size a)) by (lia || apply Zpos_mant; exact H).
    fold (size a). unfold fexp, emin. lia.
  - apply Z.leb_le. lia.
Qed.

(** An integer below 2^24, given with an exponent between -23 and 0,
    rounds to itself. *)
Lemma binary_round_int s m e a :
  Zpos a < 2 ^ 24 -> -23 <= e <= 0 -> Zpos m = Zpos a * 2 ^ (- e) ->
  binary_round 24 128 s m e
  = S754_finite s (Z.to_pos (Zpos a * 2 ^ (24 - size a))) (size a - 24).
Proof.
  intros H He E. pose proof (size_range a H) as S.
  apply binary_round_exact; [apply Fpos_bounded; exact H|].
  rewrite (Zpos_mant a H), E.
  destruct (Z_le_gt_dec e (size a - 24)) as [L|G].
  - left. split; [exact L|].
    rewrite scale_scale by lia. f_equal. f_equal. lia.
  - right. split; [lia|].
    rewrite scale_scale by lia. f_equal. f_equal. lia.
Qed.

Lemma of_int_Fpos a :
  Zpos a < 2 ^ 24 -> binary_normalize 24 128 (Zpos a) 0 false = Fpos a.
Proof.
  intros H. unfold binary_normalize, Fpos.
  apply binary_round_int; [exact H|lia|]. simpl. lia.
Qed.

Lemma shl_align_value m e e' :
  e' <= e -> Zpos (fst (shl_align m e e')) = Zpos m * 2 ^ (e - e').
Proof.
  intros L. unfold shl_align.
  destruct (e' - e) as [|k|k] eqn:D.
  - replace (e - e') with 0 by lia. simpl. lia.
  - lia.
  - cbn [fst]. rewrite Zpos_iter_xO. f_equal. f_equal. lia.
Qed.

Lemma aligned_Fpos a e :
  Zpos a < 2 ^ 24 -> e <= size a - 24 ->
  Zpos (fst (shl_align (Z.to_pos (Zpos a * 2 ^ (24 - size a))) (size a - 24) e))
  = Zpos a * 2 ^ (- e).
Proof.
  intros H L. pose proof (size_range a H) as S.
  rewrite shl_align_value by exact L.
  rewrite (Zpos_mant a H), scale_scale by lia. f_equal. f_equal. lia.
Qed.

Lemma add_Fpos a b :
  Zpos a + Zpos b < 2 ^ 24 -> SFadd 24 128 (Fpos a) (Fpos b) = Fpos (a + b).
Proof.
  intros H.
  assert (Zpos a < 2 ^ 24) as Ha by lia.
  assert (Zpos b < 2 ^ 24) as Hb by lia.
  pose proof (size_range a Ha) as Sa. pose proof (size_range b Hb) as Sb.
  unfold Fpos at 1 2. unfold SFadd, cond_Zopp.
  set (ez := Z.min (size a - 24) (size b - 24)).
  assert (ez <= size a - 24 /\ ez <= size b - 24 /\ -23 <= ez <= 0)
    as (La & Lb & Lz) by (unfold ez; lia).
  assert (Zpos (fst (shl_align (Z.to_pos (Zpos a * 2 ^ (24 - size a))) (size a - 24) ez))
          + Zpos (fst (shl_align (Z.to_pos (Zpos b * 2 ^ (24 - size b))) (size b - 24) ez))
          = Zpos (Z.to_pos (Zpos (a + b) * 2 ^ (- ez)))) as E.
  { rewrite (aligned_Fpos a ez Ha La), (aligned_Fpos b ez Hb Lb).
    pose proof (pow2_pos (- ez)).
    rewrite Z2Pos.id by nia. lia. }
  rewrite E. unfold binary_normalize, Fpos.
  apply binary_round_int; [lia|lia|].
  apply Z2Pos.id. pose proof (pow2_pos (- ez)). nia.
Qed.

Lemma sub_Fpos a b :
  (b < a)%positive -> Zpos a < 2 ^ 24 ->
  SFsub 24 128 (Fpos a) (Fpos b) = Fpos (a - b).
Proof.
  intros Hlt Ha.
  assert (Zpos b < 2 ^ 24) as Hb by lia.
  pose proof (size_range a Ha) as Sa. pose proof (size_range b Hb) as Sb.
  unfold Fpos at 1 2. unfold SFsub, cond_Zopp.
  set (ez := Z.min (size a - 24) (size b - 24)).
  assert (ez <= size a - 24 /\ ez <= size b - 24 /\ -23 <= ez <= 0)
    as (La & Lb & Lz) by (unfold ez; lia).
  assert (Zpos (fst (shl_align (Z.to_pos (Zpos a * 2 ^ (24 - size a))) (size a - 24) ez))
          - Zpos (fst (shl_align (Z.to_pos (Zpos b * 2 ^ (24 - size b))) (size b - 24) ez))
          = Zpos (Z.to_pos (Zpos (a - b) * 2 ^ (- ez)))) as E.
  { rewrite (aligned_Fpos a ez Ha La), (aligned_Fpos b ez Hb Lb).
    pose proof (pow2_pos (- ez)).
    rewrite Z2Pos.id by nia.
    rewrite (Pos2Z.inj_sub _ _ Hlt). ring. }
  rewrite E. unfold binary_normalize, Fpos.
  apply binary_round_int; [lia|lia|].
  apply Z2Pos.id. pose proof (pow2_pos (- ez)). nia.
Qed.

Lemma sub_Fpos_diag a : SFsub 24 128 (Fpos a) (Fpos a) = S754_zero false.
Proof.
  unfold Fpos, SFsub, cond_Zopp. rewrite Z.sub_diag. reflexivity.
Qed.

Lemma leb_Fpos a b :
  (a <= b)%positive -> Zpos b < 2 ^ 24 -> SFleb (Fpos a) (Fpos b) = true.
Proof.
  intros Hle Hb.
  assert (Zpos a < 2 ^ 24) as Ha by lia.
  pose proof (size_range a Ha) as Sa. pose proof (size_range b Hb) as Sb.
  pose proof (size_le a b Hle) as Sab.
  unfold SFleb, SFcompare, Fpos.
  destruct (Z.compare_spec (size a - 24) (size b - 24)) as [E|L|G];
    [|reflexivity|lia].
  assert (size a = size b) as Es by lia.
  set (ma := Z.to_pos (Zpos a * 2 ^ (24 - size a))).
  set (mb := Z.to_pos (Zpos b * 2 ^ (24 - size b))).
  assert (Zpos ma <= Zpos mb) as C.
  { unfold ma, mb. rewrite !Zpos_mant by assumption.
    rewrite Es. pose proof (pow2_pos (24 - size b)). nia. }
  change ((ma ?= mb)%positive <> Gt) in C. unfold Pos.compare in C.
  destruct (Pos.compare_cont Eq ma mb); [reflexivity|reflexivity|].
  exfalso. apply C. reflexivity.
Qed.

Lemma leb_zero_Fpos a : SFleb (S754_zero false) (Fpos a) = true.
Proof. reflexivity. Qed.
End Integers32.

(** ** Comparisons and NaN *)

Section NotANumber.
Variable prec emax : Z.

Lemma shr_1_nonneg mrs : 0 <= shr_m mrs -> 0 <= shr_m (shr_1 mrs).
Proof.
  destruct mrs as [m r s]. destruct m as [|[p|p|]|[p|p|]]; simpl; lia.
Qed.

Lemma shr_nonneg mrs e n : 0 <= shr_m mrs -> 0 <= shr_m (fst (shr mrs e n)).
Proof.
  intros H. destruct n as [|p|p]; simpl; try exact H.
  rewrite iter_pos_iter.
  apply Pos.iter_invariant; [apply shr_1_nonneg|exact H].
Qed.

Lemma shr_fexp_nonneg m e l :
  0 <= m -> 0 <= shr_m (fst (shr_fexp prec emax m e l)).
Proof.
  intros H. unfold shr_fexp. apply shr_nonneg.
  destruct l as [|[| |]]; exact H.
Qed.

Lemma round_nearest_even_nonneg m l : 0 <= m -> 0 <= round_nearest_even m l.
Proof.
  intros H. unfold round_nearest_even.
  destruct l as [|[| |]]; try destruct (Z.even m); lia.
Qed.

Lemma binary_round_aux_not_nan s m e l :
  0 <= m -> is_nan (binary_round_aux prec emax s m e l) = false.
Proof.
  intros H. unfold binary_round_aux.
  pose proof (shr_fexp_nonneg m e l H) as H1.
  destruct (shr_fexp prec emax m e l) as [mrs' e'].
  pose proof (shr_fexp_nonneg
                (round_nearest_even (shr_m mrs') (loc_of_shr_record mrs'))
                e' loc_Exact
                (round_nearest_even_nonneg _ _ H1)) as H2.
  destruct (shr_fexp prec emax _ e' loc_Exact) as [mrs'' e''].
  simpl in H2. destruct (shr_m mrs'') as [|p|p].
  - reflexivity.
  - destruct (e'' <=? emax - prec); reflexivity.
  - lia.
Qed.

Lemma binary_normalize_not_nan m e sz :
  is_nan (binary_normalize prec emax m e sz) = false.
Proof.
  unfold binary_normalize, binary_round.
  destruct m as [|p|p]; try reflexivity;
    destruct (shl_align _ _ _) as [mz ez];
    apply binary_round_aux_not_nan; lia.
Qed.

Lemma add_finite_not_nan v s m e :
  is_nan v = false -> is_nan (SFadd prec emax v (S754_finite s m e)) = false.
Proof.
  destruct v as [sv|sv| |sv mv ev]; intros H; try discriminate; try reflexivity.
  unfold SFadd. apply binary_normalize_not_nan.
Qed.

Lemma sub_finite_not_nan v s m e :
  is_nan v = false -> is_nan (SFsub prec emax v (S754_finite s m e)) = false.
Proof.
  destruct v as [sv|sv| |sv mv ev]; intros H; try discriminate; try reflexivity.
  unfold SFsub. apply binary_normalize_not_nan.
Qed.

Lemma SFcompare_antisym a b :
  SFcompare b a = option_map CompOpp (SFcompare a b).
Proof.
  destruct a as [sa|sa| |sa ma ea], b as [sb|sb| |sb mb eb];
    try destruct sa; try destruct sb; try reflexivity; simpl;
    rewrite (Z.compare_antisym ea eb);
    destruct (ea ?= eb); simpl; try reflexivity;
    rewrite (Pos.compare_cont_antisym ma mb Eq); simpl;
    try rewrite CompOpp_involutive; reflexivity.
Qed.

Lemma SFcompare_not_nan a b :
  is_nan a = false -> is_nan b = false -> exists c, SFcompare a b = Some c.
Proof.
  destruct a as [sa|sa| |sa ma ea], b as [sb|sb| |sb mb eb];
    intros Ha Hb; try discriminate; simpl; eexists; reflexivity.
Qed.

(** Without NaN, [!(a < b)] is [b <= a]. *)
Lemma ltb_false_leb a b :
  is_nan a = false -> is_nan b = false ->
  SFltb a b = false -> SFleb b a = true.
Proof.
  intros Ha Hb. unfold SFltb, SFleb.
  rewrite (SFcompare_antisym a b).
  destruct (SFcompare_not_nan a b Ha Hb) as [c ->].
  destruct c; simpl; congruence.
Qed.
End NotANumber.

(** ** Frame lemmas *)

(** Case analysis on the scrutinee of a [switch] over an integer. *)
Ltac switch_cases :=
  repeat match goal with
         | |- context [match ?n with _ => _ end] => destruct n
         end.

Lemma lines_change_color opt st : lines (change_color opt st) = lines st.
Proof.
  unfold change_color. switch_cases; reflexivity.
Qed.

Lemma change_color_valid opt st c :
  palette opt = Some c ->
  sprite (change_color opt st)
  = set_rgb (fst (fst c)) (snd (fst c)) (snd c) (sprite st).
Proof.
  unfold palette, change_color.
  switch_cases; try discriminate; intros [= <-]; reflexivity.
Qed.

Lemma change_color_invalid opt st :
  palette opt = None ->
  change_color opt st = printf ("Invalid color option" ++ nl) st.
Proof.
  unfold palette, change_color.
  switch_cases; try discriminate; reflexivity.
Qed.

Lemma palette_range opt : (exists c, palette opt = Some c) <-> 1 <= opt <= 5.
Proof.
  split.
  - intros [c H]. revert H. unfold palette.
    switch_cases; try discriminate; lia.
  - intros H.
    assert (opt = 1 \/ opt = 2 \/ opt = 3 \/ opt = 4 \/ opt = 5) as D by lia.
    destruct D as [-> | [-> | [-> | [-> | ->]]]]; eexists; reflexivity.
Qed.

(** ** Palette and colour changes *)

(** C5. [change_color] with an option outside 1..5 only writes the
    invalid-option message: the marker (colour included), the trail,
    the key flags and the pending events stay as they were, and the call
    returns (it has no exit path).  With an option in 1..5 it stores
    exactly the palette entry of that option, 1 black, 2 blue, 3 red,
    4 green, 5 yellow, and leaves the rest of the marker alone. *)
Theorem change_color_palette_or_noop (color_option : Z) (st : Globals) :
  (color_option < 1 \/ 5 < color_option ->
     change_color color_option st = printf ("Invalid color option" ++ nl) st
     /\ sprite (change_color color_option st) = sprite st)
  /\ (1 <= color_option <= 5 ->
      exists c, palette color_option = Some c
        /\ rgb (sprite (change_color color_option st)) = c
        /\ sprite (change_color color_option st)
           = set_rgb (fst (fst c)) (snd (fst c)) (snd c) (sprite st))
  /\ palette 1 = Some (f0, f0, f0) /\ palette 2 = Some (f0, f0, f1)
  /\ palette 3 = Some (f1, f0, f0) /\ palette 4 = Some (f0, f1, f0)
  /\ palette 5 = Some (f1, f1, f0).
Proof.
  split; [|split].
  - intros H.
    assert (palette color_option = None) as N.
    { destruct (palette color_option) eqn:E; [|reflexivity].
      assert (1 <= color_option <= 5) by (apply palette_range; eauto). lia. }
    rewrite (change_color_invalid _ _ N). split; reflexivity.
  - intros H. apply palette_range in H. destruct H as [c Hc].
    exists c. split; [exact Hc|].
    rewrite (change_color_valid _ _ _ Hc).
    destruct c as [[cr cg] cb]. split; reflexivity.
  - repeat split.
Qed.

(** What [==] means against the two component values of the palette:
    0.0f is matched by both zeros, 1.0f by 1.0f alone; NaN matches
    nothing. *)
Lemma eqb_f0 a :
  F32.eqb a f0 = true <-> a = S754_zero false \/ a = S754_zero true.
Proof.
  destruct a as [[|]|[|]| |[|] m e]; simpl; split;
    try discriminate; try (intros [H|H]; discriminate); auto.
Qed.

Lemma eqb_f1 a : F32.eqb a f1 = true <-> a = f1.
Proof.
  split; [|intros ->; reflexivity].
  destruct a as [[|]|[|]| |[|] m e]; try discriminate.
  unfold F32.eqb, SFeqb, SFcompare, f1.
  destruct (Z.compare_spec e (-23)) as [-> | |]; try discriminate.
  rewrite Pos.compare_cont_spec.
  destruct (Pos.compare_spec m 8388608) as [-> | |]; try discriminate.
  reflexivity.
Qed.

(** C6. After [change_color] with option 1, 2, 3, 4, 5 the colour name
    of the status overlay is Black, Blue, Red, Green, Yellow; and a
    colour that compares equal ([==] on each component) to none of the
    five palette entries is named Custom. *)
Theorem color_name_roundtrip :
  (forall st, color_name (sprite (change_color 1 st)) = "Black"%string)
  /\ (forall st, color_name (sprite (change_color 2 st)) = "Blue"%string)
  /\ (forall st, color_name (sprite (change_color 3 st)) = "Red"%string)
  /\ (forall st, color_name (sprite (change_color 4 st)) = "Green"%string)
  /\ (forall st, color_name (sprite (change_color 5 st)) = "Yellow"%string)
  /\ (forall s : Sprite,
        rgb_eqb (rgb s) black = false ->
        rgb_eqb (rgb s) blue = false ->
        rgb_eqb (rgb s) red = false ->
        rgb_eqb (rgb s) green = false ->
        rgb_eqb (rgb s) yellow = false ->
        color_name s = "Custom"%string).
Proof.
  repeat split; try (intros st; reflexivity).
  intros s. unfold rgb_eqb, rgb, black, blue, red, green, yellow, color_name.
  intros -> -> -> -> ->. reflexivity.
Qed.

(** ** The input translator *)

Lemma dispatch_None evt win st :
  dispatch evt win st = None <-> is_quit evt = true.
Proof.
  destruct evt as [|sym|sym|event d1 d2|t]; simpl;
    try destruct sym; try destruct event; simpl; split; congruence.
Qed.

Lemma dispatch_lines evt win st win' st' :
  dispatch evt win st = Some (win', st') -> lines st' = lines st.
Proof.
  destruct evt as [|sym|sym|event d1 d2|t]; simpl;
    try destruct sym; try destruct event; simpl;
    try discriminate; intros [= <- <-]; reflexivity.
Qed.

Lemma apply_event_Some evt win st ws :
  dispatch evt win st = Some ws -> apply_event (win, st) evt = ws.
Proof. unfold apply_event. simpl. intros ->. reflexivity. Qed.

Lemma poll_loop_stop pre : forall evt post win st,
  no_quit pre = true -> is_quit evt = true ->
  poll_loop (pre ++ evt :: post) win st
  = (false, fst (apply_events pre (win, st)),
     set_event_queue post (snd (apply_events pre (win, st)))).
Proof.
  induction pre as [|e pre IH]; intros evt post win st Hpre Hq; simpl.
  - apply dispatch_None with (win := win) (st := st) in Hq.
    rewrite Hq. reflexivity.
  - simpl in Hpre. apply andb_prop in Hpre. destruct Hpre as [He Hpre].
    destruct (dispatch e win st) as [[win' st']|] eqn:D.
    + unfold apply_events. simpl.
      rewrite (apply_event_Some _ _ _ _ D). apply IH; assumption.
    + apply dispatch_None in D. rewrite D in He. discriminate.
Qed.

Lemma poll_loop_drain q : forall win st,
  no_quit q = true ->
  poll_loop q win st
  = (true, fst (apply_events q (win, st)),
     set_event_queue [] (snd (apply_events q (win, st)))).
Proof.
  induction q as [|e q IH]; intros win st Hq; simpl.
  - reflexivity.
  - simpl in Hq. apply andb_prop in Hq. destruct Hq as [He Hq].
    destruct (dispatch e win st) as [[win' st']|] eqn:D.
    + unfold apply_events. simpl.
      rewrite (apply_event_Some _ _ _ _ D). apply IH; assumption.
    + apply dispatch_None in D. rewrite D in He. discriminate.
Qed.

Section Invariants.

Variable cos sin : spec_float -> spec_float.
Variable realloc_ok : Z -> bool.

Lemma dispatch_rgb evt win st win' st' :
  dispatch evt win st = Some (win', st') ->
  in_palette (rgb (sprite st)) -> in_palette (rgb (sprite st')).
Proof.
  unfold in_palette, black, blue, red, green, yellow.
  destruct evt as [|sym|sym|event d1 d2|t]; simpl;
    try destruct sym; try destruct event; simpl;
    try discriminate; intros [= <- <-]; simpl; auto 6.
Qed.

Lemma poll_loop_rgb q : forall win st running win' st',
  poll_loop q win st = (running, win', st') ->
  in_palette (rgb (sprite st)) -> in_palette (rgb (sprite st')).
Proof.
  induction q as [|e q IH]; simpl; intros win st running win' st' H P.
  - injection H as <- <- <-. exact P.
  - destruct (dispatch e win st) as [[win1 st1]|] eqn:D.
    + eapply IH; [exact H|]. eapply dispatch_rgb; eassumption.
    + injection H as <- <- <-. exact P.
Qed.

Lemma poll_loop_running q : forall win st,
  fst (fst (poll_loop q win st)) = no_quit q.
Proof.
  induction q as [|e q IH]; intros win st; simpl; [reflexivity|].
  destruct (dispatch e win st) as [[win' st']|] eqn:D.
  - rewrite IH.
    destruct (is_quit e) eqn:Q; [|reflexivity].
    apply dispatch_None with (win := win) (st := st) in Q. congruence.
  - apply dispatch_None in D. rewrite D. reflexivity.
Qed.

Lemma poll_loop_lines q : forall win st running win' st',
  poll_loop q win st = (running, win', st') -> lines st' = lines st.
Proof.
  induction q as [|e q IH]; simpl; intros win st running win' st' H.
  - injection H as <- <- <-. reflexivity.
  - destruct (dispatch e win st) as [[win1 st1]|] eqn:D.
    + rewrite (IH _ _ _ _ _ H). eapply dispatch_lines; eassumption.
    + injection H as <- <- <-. reflexivity.
Qed.

Lemma rotate_left_rgb dt st : rgb (sprite (rotate_left dt st)) = rgb (sprite st).
Proof. unfold rotate_left. destruct (keyLeftPressed st); reflexivity. Qed.

Lemma rotate_right_rgb dt st : rgb (sprite (rotate_right dt st)) = rgb (sprite st).
Proof. unfold rotate_right. destruct (keyRightPressed st); reflexivity. Qed.

Lemma rotate_left_lines dt st : lines (rotate_left dt st) = lines st.
Proof. unfold rotate_left. destruct (keyLeftPressed st); reflexivity. Qed.

Lemma rotate_right_lines dt st : lines (rotate_right dt st) = lines st.
Proof. unfold rotate_right. destruct (keyRightPressed st); reflexivity. Qed.

Lemma update_location_lines dt w h st :
  lines (update_location cos sin dt w h st) = lines st.
Proof. reflexivity. Qed.

Lemma add_line_Ret ax1 ay1 ax2 ay2 st st' :
  add_line realloc_ok ax1 ay1 ax2 ay2 st = Ret st' ->
  sprite st' = sprite st
  /\ lines st' = lines st ++ [mkLine ax1 ay1 ax2 ay2
                                     (r (sprite st)) (g (sprite st)) (b (sprite st))].
Proof.
  unfold add_line.
  destruct (lineCount st >=? lineCapacity st).
  - simpl. destruct (realloc_ok _); simpl; [|discriminate].
    intros [= <-]. split; reflexivity.
  - simpl. intros [= <-]. split; reflexivity.
Qed.

(** Without overflow the doubled capacity and the byte count of the
    request are the numbers themselves. *)
Lemma grown_capacity_exact c :
  0 <= c -> c * 2 <= INT_MAX ->
  to_int (c * 2) = c * 2
  /\ to_size_t (to_size_t (c * 2) * sizeof_Line) = c * 2 * sizeof_Line.
Proof.
  unfold INT_MAX, to_int, to_size_t, sizeof_Line.
  change (2 ^ 31) with 2147483648. change (2 ^ 32) with 4294967296.
  change (2 ^ 64) with 18446744073709551616.
  intros H0 H1. split.
  - rewrite Z.mod_small; lia.
  - rewrite (Z.mod_small (c * 2)) by lia. rewrite Z.mod_small; lia.
Qed.

(** [add_line] returns whenever the array has room or can grow. *)
Lemma add_line_returns ax1 ay1 ax2 ay2 st :
  room_or_grows realloc_ok st ->
  exists st', add_line realloc_ok ax1 ay1 ax2 ay2 st = Ret st'.
Proof.
  intros H. unfold add_line.
  destruct (lineCount st >=? lineCapacity st) eqn:E; cbn [bind].
  - destruct H as [H|(H0 & H1 & H)].
    + rewrite Z.geb_leb in E. apply Z.leb_le in E. lia.
    + cbn [lineCapacity set_lineCapacity].
      destruct (grown_capacity_exact _ H0 H1) as [-> ->].
      rewrite H. cbn [bind]. eexists; reflexivity.
  - eexists; reflexivity.
Qed.

Lemma move_forward_rgb dt win st st' :
  move_forward cos sin realloc_ok dt win st = Ret st' ->
  rgb (sprite st') = rgb (sprite st).
Proof.
  unfold move_forward.
  destruct (keyUpPressed st); [|intros [= <-]; reflexivity].
  destruct (pen _).
  - intros H. apply add_line_Ret in H. destruct H as [-> _]. reflexivity.
  - intros [= <-]. reflexivity.
Qed.

Lemma handle_events_rgb dt win st running win' st' :
  handle_events cos sin realloc_ok dt win st = Ret (running, win', st') ->
  in_palette (rgb (sprite st)) -> in_palette (rgb (sprite st')).
Proof.
  unfold handle_events.
  destruct (poll_loop (event_queue st) win st) as [[c win1] st1] eqn:P.
  intros H I. pose proof (poll_loop_rgb _ _ _ _ _ _ P I) as I1.
  destruct c.
  - destruct (move_forward _ _ _ _ _ _) as [st2|] eqn:M; simpl in H;
      [|discriminate].
    injection H as <- <- <-.
    rewrite (move_forward_rgb _ _ _ _ M), rotate_right_rgb, rotate_left_rgb.
    exact I1.
  - injection H as <- <- <-. exact I1.
Qed.

End Invariants.

(** ** Quit requests *)

Lemma handle_events_no_quit cos sin realloc_ok deltaTime win st :
  no_quit (event_queue st) = true ->
  handle_events cos sin realloc_ok deltaTime win st
  = let win' := fst (apply_events (event_queue st) (win, st)) in
    let st' := set_event_queue [] (snd (apply_events (event_queue st) (win, st))) in
    st'' <- move_forward cos sin realloc_ok deltaTime win'
              (rotate_right deltaTime (rotate_left deltaTime st')) ;;
    Ret (true, win', st'').
Proof.
  intros Hq. unfold handle_events.
  rewrite (poll_loop_drain _ win st Hq). reflexivity.
Qed.

Lemma rotate_left_off dt st : keyLeftPressed st = false -> rotate_left dt st = st.
Proof. unfold rotate_left. intros ->. reflexivity. Qed.

Lemma rotate_right_off dt st : keyRightPressed st = false -> rotate_right dt st = st.
Proof. unfold rotate_right. intros ->. reflexivity. Qed.

Lemma move_forward_pen_down cos sin realloc_ok dt win st :
  keyUpPressed st = true -> pen (sprite st) = true ->
  move_forward cos sin realloc_ok dt win st
  = add_line realloc_ok (x (sprite st)) (y (sprite st))
             (x (sprite (update_location cos sin dt (fst win) (snd win) st)))
             (y (sprite (update_location cos sin dt (fst win) (snd win) st)))
             (update_location cos sin dt (fst win) (snd win) st).
Proof.
  intros Hu Hp. unfold move_forward. rewrite Hu.
  change (pen (sprite (update_location cos sin dt (fst win) (snd win) st)))
    with (pen (sprite st)).
  rewrite Hp. reflexivity.
Qed.

(** With a quit event followed by a pen-down key in the queue, the
    specification's drain would apply the pen-down key; [handle_events]
    returns at the quit event, the key stays pending and the pen stays
    up. *)
Lemma quit_leaves_later_events_pending :
  let st := set_event_queue [SDL_QUIT; SDL_KEYDOWN SDLK_d] static_init in
  handle_events cos_at_zero sin_at_zero realloc_succeeds f0 (800, 800) st
  = Ret (false, (800, 800), set_event_queue [SDL_KEYDOWN SDLK_d] static_init)
  /\ handle_events_drain_all cos_at_zero sin_at_zero realloc_succeeds f0
       (800, 800) st
     = Ret (false, (800, 800), update_pen true static_init)
  /\ handle_events cos_at_zero sin_at_zero realloc_succeeds f0 (800, 800) st
     <> handle_events_drain_all cos_at_zero sin_at_zero realloc_succeeds f0
          (800, 800) st.
Proof.
  repeat split; try reflexivity.
  vm_compute. discriminate.
Qed.

(** C3, as the code has it.  [handle_events] applies the pending events
    in arrival order up to the first quit request (the quit event or the
    Escape key going down).  At that request it returns false at once:
    the events before it have been applied, the events after it stay in
    the queue unprocessed, and the level-triggered updates are skipped.
    When no quit request is pending, every pending event is applied, the
    queue is left empty, the level-triggered updates run and the result
    is true. *)
Theorem handle_events_stops_at_first_quit
        (cos sin : spec_float -> spec_float) (realloc_ok : Z -> bool)
        (deltaTime : spec_float) (win : Z * Z) (st : Globals) :
  (forall pre evt post,
      event_queue st = pre ++ evt :: post ->
      no_quit pre = true -> is_quit evt = true ->
      handle_events cos sin realloc_ok deltaTime win st
      = Ret (false, fst (apply_events pre (win, st)),
             set_event_queue post (snd (apply_events pre (win, st)))))
  /\ (no_quit (event_queue st) = true ->
      handle_events cos sin realloc_ok deltaTime win st
      = let win' := fst (apply_events (event_queue st) (win, st)) in
        let st' := set_event_queue [] (snd (apply_events (event_queue st) (win, st))) in
        st'' <- move_forward cos sin realloc_ok deltaTime win'
                  (rotate_right deltaTime (rotate_left deltaTime st')) ;;
        Ret (true, win', st'')).
Proof.
  split.
  - intros pre evt post E Hpre Hq. unfold handle_events.
    rewrite E, (poll_loop_stop pre evt post win st Hpre Hq). reflexivity.
  - apply handle_events_no_quit.
Qed.

(** ** Trail colours *)

(** C7. [change_color] leaves the trail as it is: every segment keeps
    its end points and its colour.  A segment appended by [add_line]
    carries the marker's colour of that moment, and a later
    [change_color] does not alter it. *)
Theorem change_color_keeps_segments (realloc_ok : Z -> bool)
        (color_option : Z) (st : Globals) :
  lines (change_color color_option st) = lines st
  /\ (forall ax1 ay1 ax2 ay2 st',
         add_line realloc_ok ax1 ay1 ax2 ay2 st = Ret st' ->
         lines (change_color color_option st')
         = lines st ++ [mkLine ax1 ay1 ax2 ay2
                               (r (sprite st)) (g (sprite st)) (b (sprite st))]).
Proof.
  split.
  - apply lines_change_color.
  - intros ax1 ay1 ax2 ay2 st' H.
    rewrite lines_change_color.
    apply (add_line_Ret realloc_ok) in H. apply H.
Qed.

(** ** Start-up *)

Lemma main_startup_Ret env ws :
  main_startup env = Ret ws ->
  ws = ((WINDOW_WIDTH, WINDOW_HEIGHT), started).
Proof.
  unfold main_startup, setup_opengl. cbv zeta.
  destruct (SDL_Init env >? 0); [discriminate|].
  destruct (SDL_CreateWindow_ok env); cbn [negb]; [|discriminate].
  destruct (SDL_GL_CreateContext_ok env); cbn [negb]; [|discriminate].
  destruct (Z.land (IMG_Init env) IMG_INIT_PNG =? 0); [discriminate|].
  destruct (TTF_Init env =? -1); [discriminate|].
  destruct (init_font_ok env); cbn [negb]; [|discriminate].
  destruct (malloc_ok env); cbn [bind]; [|discriminate].
  destruct (load_sprite_ok env); cbn [negb]; [|discriminate].
  intros [= <-]. reflexivity.
Qed.

(** C10. When start-up succeeds the window is 800 x 800, the marker is
    at its centre (400, 400), which is (windowWidth / 2, windowHeight / 2),
    its heading is 0, the pen is up, the colour is black (0, 0, 0), and
    the trail is empty. *)
Theorem main_startup_state (env : InitEnv) (win : Z * Z) (st : Globals) :
  main_startup env = Ret (win, st) ->
  win = (WINDOW_WIDTH, WINDOW_HEIGHT)
  /\ x (sprite st) = F32.div (F32.of_int (fst win)) f2
  /\ y (sprite st) = F32.div (F32.of_int (snd win)) f2
  /\ x (sprite st) = F32.of_int 400
  /\ y (sprite st) = F32.of_int 400
  /\ angle (sprite st) = f0
  /\ pen (sprite st) = false
  /\ rgb (sprite st) = (f0, f0, f0)
  /\ lines st = []
  /\ lineCount st = 0.
Proof.
  intros H. apply main_startup_Ret in H. injection H as -> ->.
  repeat split.
Qed.

Lemma main_startup_state_witness :
  main_startup init_ok = Ret ((800, 800), started)
  /\ x (sprite started) = F32.of_int 400
  /\ y (sprite started) = F32.of_int 400
  /\ lines started = [].
Proof.
  split; [reflexivity|].
  destruct (main_startup_state init_ok (800, 800) started)
    as (_ & _ & _ & X & Y & _ & _ & _ & L & _); [reflexivity|].
  repeat split; assumption.
Defined.

(** ** The colour invariant *)

(** C8. In every state of the main loop the marker's colour is one of
    the five palette entries, so the status overlay never shows
    Custom. *)
Theorem reachable_color_in_palette
        (cos sin : spec_float -> spec_float) (realloc_ok : Z -> bool)
        (ws : (Z * Z) * Globals) :
  reachable cos sin realloc_ok ws ->
  in_palette (rgb (sprite (snd ws)))
  /\ color_name (sprite (snd ws)) <> "Custom"%string.
Proof.
  intros R.
  assert (in_palette (rgb (sprite (snd ws)))) as I.
  { induction R as [env [win st] H | win st evs dt running win' st' R IH H].
    - apply main_startup_Ret in H. injection H as _ ->.
      left. reflexivity.
    - simpl in *. eapply handle_events_rgb; [exact H|]. exact IH. }
  split; [exact I|].
  destruct ws as [win [[sx sy sa st sp cr cg cb] ls cap kl kr ku q out]].
  unfold in_palette, rgb, black, blue, red, green, yellow in I. simpl in I.
  unfold color_name. simpl.
  destruct I as [I | [I | [I | [I | I]]]]; injection I as -> -> ->;
    vm_compute; discriminate.
Qed.

(** ** Heading *)

(** The wrap of the right turn on a short frame: heading 10, a quarter
    of a second, 22.5 degrees to the right, heading 347.5. *)
Example rotate_right_wraps :
  angle (sprite (rotate_right f0_25
                   (set_keyRightPressed true
                      (with_heading (F32.of_int 10) static_init))))
  = f347_5.
Proof. reflexivity. Qed.

(** C1 fails on a long frame.  With the Right key held, heading 10 and a
    frame of 5 seconds the rotation is 450 degrees to the right;
    [handle_events] computes fmodf(10 - 450 + 360, 360) = -80 and leaves
    the heading negative, where normalisation into [0, 360) asks for
    280. *)
Theorem rotate_right_long_frame_negative
        (cos sin : spec_float -> spec_float) (realloc_ok : Z -> bool) :
  let st := set_keyRightPressed true
              (with_heading (F32.of_int 10) static_init) in
  handle_events cos sin realloc_ok (F32.of_int 5) (800, 800) st
  = Ret (true, (800, 800), with_heading (F32.neg (F32.of_int 80)) st)
  /\ F32.ltb (F32.neg (F32.of_int 80)) f0 = true
  /\ F32.leb f0 (F32.of_int 10) = true
  /\ F32.ltb (F32.of_int 10) f360 = true.
Proof. repeat split. Qed.

(** ** Forward movement *)

Lemma update_location_clamp cos sin dt w h st :
  sprite (update_location cos sin dt w h st)
  = set_xy (clamp w (F32.add (x (sprite st))
                             (displacement_x cos (angle (sprite st)) dt)))
           (clamp h (F32.add (y (sprite st))
                             (displacement_y sin (angle (sprite st)) dt)))
           (sprite st).
Proof. reflexivity. Qed.

Lemma radians_zero : radians f0 = f0.
Proof. reflexivity. Qed.

(** ** One segment per forward frame *)

(** With a quit event pending, Up held and the pen down, the call
    returns false and appends nothing. *)
Lemma quit_frame_appends_nothing :
  let st := set_event_queue [SDL_QUIT] scenario_state in
  keyUpPressed st = true
  /\ pen (sprite st) = true
  /\ exists st',
      handle_events cos_at_zero sin_at_zero realloc_succeeds f1 (800, 800) st
      = Ret (false, (800, 800), st')
      /\ keyUpPressed st' = true
      /\ pen (sprite st') = true
      /\ lines st' = lines st
      /\ lineCount st' <> lineCount st + 1.
Proof.
  split; [reflexivity|]. split; [reflexivity|].
  eexists. split; [reflexivity|].
  repeat split. discriminate.
Qed.

(** C9, as the code has it.  On a call with no quit request pending: if
    after the pending events have been applied the Up key is held and the
    pen is down, and the trail array has room or can grow, the call
    returns true and appends exactly one segment, from the position
    before [update_location] to the position after it, in the marker's
    colour.  This holds whatever the clamping does: when the position
    after equals the position before, the appended segment has length
    zero.  A call that meets a quit request returns false and appends
    nothing, whatever the keys held and the pen. *)
Theorem forward_frame_appends_one_segment
        (cos sin : spec_float -> spec_float) (realloc_ok : Z -> bool)
        (deltaTime : spec_float) (win : Z * Z) (st : Globals) :
  (no_quit (event_queue st) = true ->
   let win1 := fst (apply_events (event_queue st) (win, st)) in
   let st1 := rotate_right deltaTime
                (rotate_left deltaTime
                   (set_event_queue []
                      (snd (apply_events (event_queue st) (win, st))))) in
   let st2 := update_location cos sin deltaTime (fst win1) (snd win1) st1 in
   keyUpPressed st1 = true ->
   pen (sprite st1) = true ->
   room_or_grows realloc_ok st1 ->
   exists st',
     handle_events cos sin realloc_ok deltaTime win st = Ret (true, win1, st')
     /\ sprite st' = sprite st2
     /\ lines st'
        = lines st ++ [mkLine (x (sprite st1)) (y (sprite st1))
                              (x (sprite st2)) (y (sprite st2))
                              (r (sprite st2)) (g (sprite st2)) (b (sprite st2))]
     /\ lineCount st' = lineCount st + 1
     /\ (x (sprite st2) = x (sprite st1) -> y (sprite st2) = y (sprite st1) ->
         exists l, lines st' = lines st ++ [l]
                   /\ x2 l = x1 l /\ y2 l = y1 l))
  /\ (no_quit (event_queue st) = false ->
      exists win' st',
        handle_events cos sin realloc_ok deltaTime win st
        = Ret (false, win', st')
        /\ lines st' = lines st
        /\ lineCount st' = lineCount st).
Proof.
  split.
  - intros Hq win1 st1 st2 Hu Hp Hroom.
    rewrite handle_events_no_quit by exact Hq.
    cbv zeta. fold win1. fold st1.
    rewrite (move_forward_pen_down cos sin realloc_ok deltaTime win1 st1 Hu Hp).
    fold st2.
    destruct (add_line_returns realloc_ok (x (sprite st1)) (y (sprite st1))
                (x (sprite st2)) (y (sprite st2)) st2 Hroom) as [st' A].
    exists st'. rewrite A.
    apply add_line_Ret in A. destruct A as [A1 A2].
    assert (lines st2 = lines st) as L.
    { unfold st2. rewrite update_location_lines.
      unfold st1. rewrite rotate_right_lines, rotate_left_lines.
      destruct (apply_events (event_queue st) (win, st)) as [w' s'] eqn:E.
      pose proof (poll_loop_drain (event_queue st) win st Hq) as P.
      rewrite E in P. apply (poll_loop_lines) in P. exact P. }
    rewrite L in A2.
    split; [reflexivity|]. split; [exact A1|]. split; [exact A2|]. split.
    + unfold lineCount. rewrite A2, length_app. simpl. lia.
    + intros Ex Ey. eexists. split; [exact A2|].
      simpl. split; assumption.
  - intros Hq. unfold handle_events.
    destruct (poll_loop (event_queue st) win st) as [[c win1] st1] eqn:P.
    pose proof (poll_loop_running (event_queue st) win st) as Rn.
    rewrite P in Rn. cbn [fst] in Rn. rewrite Hq in Rn. subst c.
    exists win1, st1. split; [reflexivity|].
    apply poll_loop_lines in P.
    split; [exact P|]. unfold lineCount. rewrite P. reflexivity.
Qed.

Lemma forward_frame_appends_one_segment_witness :
  (exists st',
      handle_events cos_at_zero sin_at_zero realloc_succeeds f1 (800, 800)
                    wall_state
      = Ret (true, (800, 800), st')
      /\ sprite st' = sprite wall_state
      /\ lines st' = [mkLine f775 f400 f775 f400 f0 f0 f0]
      /\ lineCount st' = 1)
  /\ (exists win' st',
         handle_events cos_at_zero sin_at_zero realloc_succeeds f1 (800, 800)
                       (set_event_queue [SDL_KEYDOWN SDLK_d; SDL_QUIT]
                                        wall_state)
         = Ret (false, win', st')
         /\ lines st' = []).
Proof.
  split.
  - destruct (proj1 (forward_frame_appends_one_segment
                       cos_at_zero sin_at_zero realloc_succeeds f1 (800, 800)
                       wall_state))
      as (st' & H & S & L & C & _).
    + reflexivity.
    + reflexivity.
    + reflexivity.
    + left. vm_compute. reflexivity.
    + exists st'. repeat split; assumption.
  - destruct (proj2 (forward_frame_appends_one_segment
                       cos_at_zero sin_at_zero realloc_succeeds f1 (800, 800)
                       (set_event_queue [SDL_KEYDOWN SDLK_d; SDL_QUIT]
                                        wall_state)))
      as (win' & st' & H & L & _).
    + reflexivity.
    + exists win', st'. split; [exact H|exact L].
Defined.

(** ** Clamping *)

(** In a window of 40 x 40 the marker of the scenario, standing still,
    is put at (15, 15): its box reaches from -10 to 40. *)
Lemma small_window_box_outside :
  let st := update_location cos_at_zero sin_at_zero f0 40 40 scenario_state in
  x (sprite st) = F32.of_int 15
  /\ y (sprite st) = F32.of_int 15
  /\ F32.sub (x (sprite st)) f25 = F32.neg (F32.of_int 10)
  /\ F32.leb f0 (F32.sub (x (sprite st)) f25) = false
  /\ box_inside 40 40 (sprite st) = false.
Proof. repeat split. Qed.

Lemma f25_Fpos : f25 = Fpos 25.
Proof. reflexivity. Qed.

Lemma of_int_window w :
  50 <= w < 2 ^ 24 -> F32.of_int w = Fpos (Z.to_pos w).
Proof.
  intros H. destruct w as [|p|p]; try lia.
  unfold F32.of_int. apply of_int_Fpos. lia.
Qed.

(** One coordinate after clamping, for a window side from 50 up to
    2^24 - 1 (where the conversion to [float] is exact). *)
Lemma clamp_inside w v :
  50 <= w < 2 ^ 24 -> is_nan v = false ->
  F32.leb f0 (F32.sub (clamp w v) f25) = true
  /\ F32.leb (F32.add (clamp w v) f25) (F32.of_int w) = true.
Proof.
  intros Hw Hv. rewrite (of_int_window w Hw).
  destruct w as [|p|p]; try lia. simpl Z.to_pos.
  assert (50 <= p)%positive as H50 by lia.
  assert (Zpos p < 2 ^ 24) as Hp by lia.
  unfold clamp. rewrite (of_int_window (Zpos p) Hw). simpl Z.to_pos.
  destruct (F32.ltb (F32.sub v f25) f0) eqn:Lo.
  - split; [reflexivity|].
    change (F32.add f25 f25) with (Fpos 50).
    apply leb_Fpos; assumption.
  - destruct (F32.gtb (F32.add v f25) (Fpos p)) eqn:Hi.
    + rewrite f25_Fpos. unfold F32.sub, F32.add, F32.leb, F32.prec, F32.emax.
      rewrite (sub_Fpos p 25) by lia.
      split.
      * destruct (Pos.eq_dec (p - 25) 25) as [E|N].
        -- rewrite E, sub_Fpos_diag. reflexivity.
        -- rewrite (sub_Fpos (p - 25) 25) by lia. apply leb_zero_Fpos.
      * rewrite (add_Fpos (p - 25) 25) by lia.
        replace (p - 25 + 25)%positive with p by lia.
        apply leb_Fpos; [lia|assumption].
    + split.
      * apply ltb_false_leb; [|reflexivity|exact Lo].
        rewrite f25_Fpos. apply sub_finite_not_nan. exact Hv.
      * apply ltb_false_leb; [reflexivity| |exact Hi].
        rewrite f25_Fpos. apply add_finite_not_nan. exact Hv.
Qed.

(** C2, as the code has it.  For a window whose sides are at least 50
    (the extent of the sprite) and below 2^24, and a position before
    clamping that is a number, the position [update_location] stores has
    its half-extent box inside the window, in the arithmetic of the
    program: 0 <= x - 25, x + 25 <= (float)windowWidth, 0 <= y - 25 and
    y + 25 <= (float)windowHeight. *)
Theorem update_location_box_inside
        (cos sin : spec_float -> spec_float) (deltaTime : spec_float)
        (windowWidth windowHeight : Z) (st : Globals) :
  50 <= windowWidth < 2 ^ 24 ->
  50 <= windowHeight < 2 ^ 24 ->
  is_nan (candidate_x cos deltaTime (sprite st)) = false ->
  is_nan (candidate_y sin deltaTime (sprite st)) = false ->
  box_inside windowWidth windowHeight
             (sprite (update_location cos sin deltaTime
                                      windowWidth windowHeight st)) = true.
Proof.
  intros Hw Hh Nx Ny.
  rewrite update_location_clamp. unfold box_inside.
  cbn [x y set_xy].
  destruct (clamp_inside windowWidth _ Hw Nx) as [X1 X2].
  destruct (clamp_inside windowHeight _ Hh Ny) as [Y1 Y2].
  unfold candidate_x in X1, X2. unfold candidate_y in Y1, Y2.
  rewrite X1, X2, Y1, Y2. reflexivity.
Qed.

Lemma update_location_box_inside_witness :
  box_inside 800 800
             (sprite (update_location cos_at_zero sin_at_zero f1 800 800
                                      wall_state)) = true.
Proof.
  apply (update_location_box_inside cos_at_zero sin_at_zero f1 800 800
                                    wall_state);
    try reflexivity; lia.
Defined.

(** The test of the right edge is made on the rounded sum: at
    x = 999 + 2^-14 in a window 1024 wide, x + 25 rounds to 1024 and the
    position is kept. *)
Example right_edge_test_rounds :
  let v := S754_finite false 16367617 (-14) in
  F32.add v f25 = F32.of_int 1024 /\ clamp 1024 v = v.
Proof. split; reflexivity. Qed.

(** ** Instances *)

Lemma change_color_palette_or_noop_witness :
  change_color 6 static_init
  = printf ("Invalid color option" ++ nl) static_init
  /\ rgb (sprite (change_color 3 static_init)) = red.
Proof.
  split.
  - apply (proj1 (change_color_palette_or_noop 6 static_init)). right. lia.
  - destruct (proj1 (proj2 (change_color_palette_or_noop 3 static_init)))
      as (c & P & R & _); [lia|].
    injection P as <-. exact R.
Defined.

Lemma color_name_roundtrip_witness :
  color_name (set_rgb f0_25 f0_25 f0_25 (sprite static_init))
  = "Custom"%string.
Proof.
  apply (proj2 (proj2 (proj2 (proj2 (proj2 color_name_roundtrip)))));
    reflexivity.
Defined.

Lemma change_color_keeps_segments_witness :
  exists st',
    add_line realloc_succeeds f400 f400 f600 f400 scenario_state = Ret st'
    /\ lines (change_color 3 st') = [mkLine f400 f400 f600 f400 f0 f0 f0].
Proof.
  eexists. split; [reflexivity|].
  apply (proj2 (change_color_keeps_segments realloc_succeeds 3 scenario_state)).
  reflexivity.
Defined.

Lemma handle_events_stops_at_first_quit_witness :
  handle_events cos_at_zero sin_at_zero realloc_succeeds f0 (800, 800)
    (set_event_queue [SDL_KEYDOWN SDLK_d; SDL_QUIT; SDL_KEYDOWN SDLK_u]
                     static_init)
  = Ret (false, (800, 800),
         set_event_queue [SDL_KEYDOWN SDLK_u] (update_pen true static_init)).
Proof.
  apply (proj1 (handle_events_stops_at_first_quit
                  cos_at_zero sin_at_zero realloc_succeeds f0 (800, 800)
                  (set_event_queue
                     [SDL_KEYDOWN SDLK_d; SDL_QUIT; SDL_KEYDOWN SDLK_u]
                     static_init))
               [SDL_KEYDOWN SDLK_d] SDL_QUIT [SDL_KEYDOWN SDLK_u]);
    reflexivity.
Defined.

Lemma reachable_color_in_palette_witness :
  exists st',
    main_startup init_ok = Ret ((800, 800), started)
    /\ handle_events cos_at_zero sin_at_zero realloc_succeeds f0 (800, 800)
                     (enqueue [SDL_KEYDOWN SDLK_3] started)
       = Ret (true, (800, 800), st')
    /\ rgb (sprite st') = red
    /\ color_name (sprite st') <> "Custom"%string.
Proof.
  eexists.
  split; [reflexivity|]. split; [reflexivity|]. split; [reflexivity|].
  refine (proj2 (reachable_color_in_palette
                   cos_at_zero sin_at_zero realloc_succeeds
                   ((800, 800), _) _)).
  apply (reach_frame _ _ _ (800, 800) started [SDL_KEYDOWN SDLK_3] f0 true).
  - apply (reach_start _ _ _ init_ok). reflexivity.
  - reflexivity.
Defined.

(** * Further properties of the input translator *)

(** ** The shape of a call *)

Lemma no_quit_existsb q : no_quit q = negb (existsb is_quit q).
Proof.
  induction q as [|e q IH]; simpl; [reflexivity|].
  rewrite IH. destruct (is_quit e); reflexivity.
Qed.

(** A call that returns has polled, and then either stopped at a quit
    request or run the three blocks after the loop. *)
Lemma handle_events_Ret cos sin realloc_ok dt win st running win' st' :
  handle_events cos sin realloc_ok dt win st = Ret (running, win', st') ->
  exists st1,
    poll_loop (event_queue st) win st = (running, win', st1)
    /\ (running = false -> st' = st1)
    /\ (running = true ->
        move_forward cos sin realloc_ok dt win'
                     (rotate_right dt (rotate_left dt st1)) = Ret st').
Proof.
  unfold handle_events.
  destruct (poll_loop (event_queue st) win st) as [[c win1] st1].
  destruct c.
  - destruct (move_forward _ _ _ _ _ _) as [st2|] eqn:M; simpl;
      [|discriminate].
    intros [= <- <- <-]. exists st1. repeat split; congruence.
  - intros [= <- <- <-]. exists st1. repeat split; congruence.
Qed.

Lemma at_rest_refl st : at_rest st st.
Proof. repeat split. Qed.

Lemma at_rest_trans st1 st2 st3 :
  at_rest st1 st2 -> at_rest st2 st3 -> at_rest st1 st3.
Proof.
  unfold at_rest. intros (A1 & A2 & A3 & A4 & A5) (B1 & B2 & B3 & B4 & B5).
  repeat split; congruence.
Qed.

Lemma dispatch_at_rest evt win st win' st' :
  dispatch evt win st = Some (win', st') -> at_rest st st'.
Proof.
  destruct evt as [|sym|sym|event w h|t]; simpl;
    try destruct sym; try destruct event; simpl;
    try discriminate; intros [= <- <-]; repeat split.
Qed.

Lemma poll_loop_at_rest q : forall win st running win' st',
  poll_loop q win st = (running, win', st') -> at_rest st st'.
Proof.
  induction q as [|e q IH]; simpl; intros win st running win' st' H.
  - injection H as <- <- <-. repeat split.
  - destruct (dispatch e win st) as [[win1 st1]|] eqn:D.
    + eapply at_rest_trans; [eapply dispatch_at_rest; eassumption|].
      eapply IH; eassumption.
    + injection H as <- <- <-. repeat split.
Qed.

Lemma rotate_left_controls dt st : same_controls st (rotate_left dt st).
Proof. unfold rotate_left. destruct (keyLeftPressed st); repeat split. Qed.

Lemma rotate_right_controls dt st : same_controls st (rotate_right dt st).
Proof. unfold rotate_right. destruct (keyRightPressed st); repeat split. Qed.

Lemma add_line_controls realloc_ok ax1 ay1 ax2 ay2 st st' :
  add_line realloc_ok ax1 ay1 ax2 ay2 st = Ret st' -> same_controls st st'.
Proof.
  unfold add_line.
  destruct (lineCount st >=? lineCapacity st); simpl.
  - destruct (realloc_ok _); simpl; [|discriminate].
    intros [= <-]. repeat split.
  - intros [= <-]. repeat split.
Qed.

Lemma move_forward_controls cos sin realloc_ok dt win st st' :
  move_forward cos sin realloc_ok dt win st = Ret st' -> same_controls st st'.
Proof.
  unfold move_forward.
  destruct (keyUpPressed st); [|intros [= <-]; repeat split].
  destruct (pen _).
  - intros H. apply add_line_controls in H. exact H.
  - intros [= <-]. repeat split.
Qed.

Lemma same_controls_trans st1 st2 st3 :
  same_controls st1 st2 -> same_controls st2 st3 -> same_controls st1 st3.
Proof.
  unfold same_controls.
  intros (A1 & A2 & A3 & A4 & A5 & A6 & A7) (B1 & B2 & B3 & B4 & B5 & B6 & B7).
  repeat split; congruence.
Qed.

(** The blocks after the loop keep the controls. *)
Lemma level_blocks_controls cos sin realloc_ok dt win st st' :
  move_forward cos sin realloc_ok dt win
               (rotate_right dt (rotate_left dt st)) = Ret st' ->
  same_controls st st'.
Proof.
  intros H. apply move_forward_controls in H.
  eapply same_controls_trans; [apply rotate_left_controls|].
  eapply same_controls_trans; [apply rotate_right_controls|exact H].
Qed.

Lemma rotate_left_rest dt st :
  x (sprite (rotate_left dt st)) = x (sprite st)
  /\ y (sprite (rotate_left dt st)) = y (sprite st)
  /\ lines (rotate_left dt st) = lines st
  /\ lineCapacity (rotate_left dt st) = lineCapacity st.
Proof. unfold rotate_left. destruct (keyLeftPressed st); repeat split. Qed.

Lemma rotate_right_rest dt st :
  x (sprite (rotate_right dt st)) = x (sprite st)
  /\ y (sprite (rotate_right dt st)) = y (sprite st)
  /\ lines (rotate_right dt st) = lines st
  /\ lineCapacity (rotate_right dt st) = lineCapacity st.
Proof. unfold rotate_right. destruct (keyRightPressed st); repeat split. Qed.

Lemma move_forward_angle cos sin realloc_ok dt win st st' :
  move_forward cos sin realloc_ok dt win st = Ret st' ->
  angle (sprite st') = angle (sprite st).
Proof.
  unfold move_forward.
  destruct (keyUpPressed st); [|intros [= <-]; reflexivity].
  destruct (pen _).
  - intros H. apply add_line_Ret in H. destruct H as [-> _]. reflexivity.
  - intros [= <-]. reflexivity.
Qed.

(** [move_forward] appends nothing or one segment. *)
Lemma move_forward_lines cos sin realloc_ok dt win st st' :
  move_forward cos sin realloc_ok dt win st = Ret st' ->
  (keyUpPressed st && pen (sprite st) = false /\ lines st' = lines st)
  \/ (keyUpPressed st && pen (sprite st) = true
      /\ exists l, lines st' = lines st ++ [l]).
Proof.
  unfold move_forward.
  destruct (keyUpPressed st); [|intros [= <-]; left; split; reflexivity].
  change (pen (sprite (update_location cos sin dt (fst win) (snd win) st)))
    with (pen (sprite st)).
  destruct (pen (sprite st)).
  - intros H. apply add_line_Ret in H. destruct H as [_ H].
    right. split; [reflexivity|]. eexists. exact H.
  - intros [= <-]. left. split; reflexivity.
Qed.

Lemma move_forward_idle cos sin realloc_ok dt win st st' :
  keyUpPressed st = false ->
  move_forward cos sin realloc_ok dt win st = Ret st' -> st' = st.
Proof. unfold move_forward. intros ->. intros [= <-]. reflexivity. Qed.

(** ** The trail only grows, by at most one segment a call *)

(** X1. Whatever the pending events, the held keys and the frame time,
    a call of [handle_events] that returns leaves every segment of the
    trail in place and appends none or one: the trail after the call is
    the trail before it, or that trail with one segment at its end. *)
Theorem handle_events_trail_append_only
        (cos sin : spec_float -> spec_float) (realloc_ok : Z -> bool)
        (deltaTime : spec_float) (win : Z * Z) (st : Globals)
        (running : bool) (win' : Z * Z) (st' : Globals) :
  handle_events cos sin realloc_ok deltaTime win st
  = Ret (running, win', st') ->
  (lines st' = lines st \/ exists l, lines st' = lines st ++ [l])
  /\ lineCount st <= lineCount st' <= lineCount st + 1.
Proof.
  intros H. apply handle_events_Ret in H.
  destruct H as (st1 & P & F & T).
  apply poll_loop_at_rest in P. destruct P as (_ & _ & _ & L1 & _).
  assert (lines st' = lines st \/ exists l, lines st' = lines st ++ [l]) as D.
  { destruct running.
    - specialize (T eq_refl). apply move_forward_lines in T.
      destruct (rotate_left_rest deltaTime st1) as (_ & _ & L2 & _).
      destruct (rotate_right_rest deltaTime (rotate_left deltaTime st1))
        as (_ & _ & L3 & _).
      rewrite L3, L2, L1 in T.
      destruct T as [[_ T]|[_ T]]; [left|right]; exact T.
    - rewrite (F eq_refl). left. exact L1. }
  split; [exact D|].
  unfold lineCount.
  destruct D as [-> | [l ->]]; [lia|].
  rewrite length_app. simpl. lia.
Qed.

Lemma handle_events_trail_append_only_witness :
  exists st',
    handle_events cos_at_zero sin_at_zero realloc_succeeds f1 (800, 800)
                  wall_state = Ret (true, (800, 800), st')
    /\ (lines st' = lines wall_state
        \/ exists l, lines st' = lines wall_state ++ [l]).
Proof.
  eexists. split; [reflexivity|].
  eapply (handle_events_trail_append_only
            cos_at_zero sin_at_zero realloc_succeeds f1 (800, 800) wall_state).
  reflexivity.
Defined.

(** ** The marker moves, turns and draws only on demand *)

(** X2. For a call of [handle_events] that returns: if it returns false
    (a quit request), position, heading and trail are as before the
    call; if the Up key is not held at the end of the call, position and
    trail are as before; if neither turn key is held at the end, the
    heading is as before; if the pen is up at the end, the trail is as
    before. *)
Theorem handle_events_acts_only_on_demand
        (cos sin : spec_float -> spec_float) (realloc_ok : Z -> bool)
        (deltaTime : spec_float) (win : Z * Z) (st : Globals)
        (running : bool) (win' : Z * Z) (st' : Globals) :
  handle_events cos sin realloc_ok deltaTime win st
  = Ret (running, win', st') ->
  (running = false -> at_rest st st')
  /\ (keyUpPressed st' = false ->
      x (sprite st') = x (sprite st) /\ y (sprite st') = y (sprite st)
      /\ lines st' = lines st)
  /\ (keyLeftPressed st' = false -> keyRightPressed st' = false ->
      angle (sprite st') = angle (sprite st))
  /\ (pen (sprite st') = false -> lines st' = lines st).
Proof.
  intros H. apply handle_events_Ret in H.
  destruct H as (st1 & P & F & T).
  apply poll_loop_at_rest in P.
  destruct running.
  - specialize (T eq_refl).
    pose proof (level_blocks_controls _ _ _ _ _ _ _ T)
      as (KL & KR & KU & KP & _).
    destruct P as (Px & Py & Pa & Pl & _).
    destruct (rotate_left_rest deltaTime st1) as (Lx & Ly & Ll & _).
    destruct (rotate_right_rest deltaTime (rotate_left deltaTime st1))
      as (Rx & Ry & Rl & _).
    destruct (rotate_left_controls deltaTime st1) as (_ & LR & LU & LP & _).
    destruct (rotate_right_controls deltaTime (rotate_left deltaTime st1))
      as (_ & _ & RU & RP & _).
    split; [discriminate|]. split; [|split].
    + intros U. rewrite KU in U.
      assert (keyUpPressed (rotate_right deltaTime (rotate_left deltaTime st1))
              = false) as U' by congruence.
      rewrite (move_forward_idle _ _ _ _ _ _ _ U' T).
      repeat split; congruence.
    + intros L R. rewrite KL in L. rewrite KR in R.
      rewrite (move_forward_angle _ _ _ _ _ _ _ T).
      unfold rotate_right. rewrite LR, R.
      unfold rotate_left. rewrite L. exact Pa.
    + intros Q. rewrite KP in Q.
      apply move_forward_lines in T.
      destruct T as [[_ T]|[C _]]; [congruence|].
      apply andb_prop in C. destruct C as [_ C]. congruence.
  - rewrite (F eq_refl). split; [intros _; exact P|].
    destruct P as (Px & Py & Pa & Pl & _).
    split; [intros _; repeat split; assumption|].
    split; intros; assumption.
Qed.

Lemma handle_events_acts_only_on_demand_witness :
  handle_events cos_at_zero sin_at_zero realloc_succeeds f1 (800, 800)
                (enqueue [SDL_KEYUP SDLK_UP] scenario_state)
  = Ret (true, (800, 800), update_pen true started)
  /\ x (sprite (update_pen true started)) = x (sprite scenario_state)
  /\ lines (update_pen true started) = lines scenario_state.
Proof.
  split; [reflexivity|].
  destruct (handle_events_acts_only_on_demand
              cos_at_zero sin_at_zero realloc_succeeds f1 (800, 800)
              (enqueue [SDL_KEYUP SDLK_UP] scenario_state)
              true (800, 800) (update_pen true started) eq_refl)
    as (_ & U & _).
  destruct (U eq_refl) as (X & _ & L). split; assumption.
Defined.

(** ** The result of a call *)

Lemma handle_events_running cos sin realloc_ok dt win st running win' st' :
  handle_events cos sin realloc_ok dt win st = Ret (running, win', st') ->
  running = negb (existsb is_quit (event_queue st))
  /\ (running = true -> event_queue st' = []).
Proof.
  intros H. apply handle_events_Ret in H.
  destruct H as (st1 & P & F & T).
  pose proof (poll_loop_running (event_queue st) win st) as R.
  rewrite P in R. simpl in R. rewrite no_quit_existsb in R.
  split; [exact R|].
  intros ->. specialize (T eq_refl).
  pose proof (level_blocks_controls _ _ _ _ _ _ _ T)
    as (_ & _ & _ & _ & _ & Q & _).
  rewrite Q.
  assert (no_quit (event_queue st) = true) as N
      by (rewrite no_quit_existsb; congruence).
  rewrite (poll_loop_drain _ win st N) in P.
  injection P as _ <-. reflexivity.
Qed.

(** X3. A call of [handle_events] that returns, returns false exactly
    when a quit request (the quit event or the Escape key going down) is
    among the pending events; when it returns true, no event is left
    pending. *)
Theorem handle_events_false_iff_quit_pending
        (cos sin : spec_float -> spec_float) (realloc_ok : Z -> bool)
        (deltaTime : spec_float) (win : Z * Z) (st : Globals)
        (running : bool) (win' : Z * Z) (st' : Globals) :
  handle_events cos sin realloc_ok deltaTime win st
  = Ret (running, win', st') ->
  running = negb (existsb is_quit (event_queue st))
  /\ (running = true -> event_queue st' = []).
Proof. apply handle_events_running. Qed.

Lemma handle_events_false_iff_quit_pending_witness :
  handle_events cos_at_zero sin_at_zero realloc_succeeds f0 (800, 800)
    (enqueue [SDL_KEYDOWN SDLK_d; SDL_KEYDOWN SDLK_ESCAPE] started)
  = Ret (false, (800, 800),
         set_event_queue [] (update_pen true started))
  /\ false = negb (existsb is_quit [SDL_KEYDOWN SDLK_d; SDL_KEYDOWN SDLK_ESCAPE]).
Proof.
  split; [reflexivity|].
  apply (handle_events_false_iff_quit_pending
           cos_at_zero sin_at_zero realloc_succeeds f0 (800, 800)
           (enqueue [SDL_KEYDOWN SDLK_d; SDL_KEYDOWN SDLK_ESCAPE] started)
           false (800, 800) (set_event_queue [] (update_pen true started))).
  reflexivity.
Defined.

(** ** The trail array *)

Lemma trail_fits_at_rest st st' :
  at_rest st st' -> trail_fits st -> trail_fits st'.
Proof.
  intros (_ & _ & _ & L & C). unfold trail_fits, lineCount. rewrite L, C.
  trivial.
Qed.

(** A capacity of the doubling sequence is an [int], and the bytes of
    an array of that capacity are a [size_t]. *)
Lemma trail_fits_bounds st :
  trail_fits st ->
  0 < lineCapacity st <= 50 * 2 ^ 25
  /\ lineCapacity st <= INT_MAX
  /\ lineCapacity st * sizeof_Line <= SIZE_MAX.
Proof.
  intros [_ (k & Kle & K)].
  assert (0 < 2 ^ Z.of_nat k) as P by (apply pow2_pos; lia).
  assert (2 ^ Z.of_nat k <= 2 ^ 25) as Q by (apply Z.pow_le_mono_r; lia).
  unfold INT_MAX, SIZE_MAX, sizeof_Line. rewrite K.
  change (2 ^ 25) with 33554432 in *. change (2 ^ 31) with 2147483648.
  change (2 ^ 64) with 18446744073709551616. lia.
Qed.

Lemma add_line_trail_fits
      (realloc_ok : Z -> bool) (ax1 ay1 ax2 ay2 : spec_float)
      (st st' : Globals) :
  trail_fits st ->
  lineCount st < 50 * 2 ^ 25 ->
  add_line realloc_ok ax1 ay1 ax2 ay2 st = Ret st' ->
  0 <= lineCount st < lineCapacity st'
  /\ ((lineCount st < lineCapacity st /\ lineCapacity st' = lineCapacity st)
      \/ (lineCount st = lineCapacity st
          /\ lineCapacity st' = 2 * lineCapacity st
          /\ lineCapacity st' <= INT_MAX
          /\ lineCapacity st' * sizeof_Line <= SIZE_MAX
          /\ realloc_ok (lineCapacity st' * sizeof_Line) = true))
  /\ trail_fits st'.
Proof.
  intros [F (k & Kle & K)] B. unfold add_line.
  assert (0 < 2 ^ Z.of_nat k) as P by (apply pow2_pos; lia).
  assert (0 <= lineCount st) as N by (unfold lineCount; lia).
  destruct (lineCount st >=? lineCapacity st) eqn:G; cbn [bind];
    rewrite Z.geb_leb in G.
  - apply Z.leb_le in G.
    assert (k < 25)%nat as Klt.
    { destruct (Nat.eq_dec k 25) as [E|E]; [|lia].
      rewrite E in K. change (Z.of_nat 25) with 25 in K. lia. }
    assert (2 ^ Z.of_nat k <= 2 ^ 24) as Q by (apply Z.pow_le_mono_r; lia).
    change (2 ^ 24) with 16777216 in Q.
    assert (lineCapacity st * 2 <= INT_MAX) as I.
    { unfold INT_MAX. change (2 ^ 31) with 2147483648. lia. }
    cbn [lineCapacity set_lineCapacity].
    destruct (grown_capacity_exact (lineCapacity st) ltac:(lia) I) as [E1 E2].
    rewrite E1, E2.
    destruct (realloc_ok _) eqn:R; cbn [bind]; [|discriminate].
    intros [= <-]. unfold trail_fits, lineCount in *.
    cbn [lines lineCapacity set_lines set_lineCapacity].
    rewrite length_app. cbn [List.length]. rewrite Nat2Z.inj_add.
    split; [lia|]. split.
    + right. split; [lia|]. split; [lia|]. split; [exact I|].
      split; [|exact R].
      unfold SIZE_MAX, sizeof_Line.
      change (2 ^ 64) with 18446744073709551616. lia.
    + split; [lia|]. exists (S k). split; [lia|].
      rewrite K, Nat2Z.inj_succ, Z.pow_succ_r; lia.
  - apply Z.leb_gt in G.
    intros [= <-]. unfold trail_fits, lineCount in *.
    cbn [lines lineCapacity set_lines set_lineCapacity].
    rewrite length_app. cbn [List.length]. rewrite Nat2Z.inj_add.
    split; [lia|]. split; [left; split; [lia|reflexivity]|].
    split; [lia|]. exists k. split; [exact Kle|exact K].
Qed.

(** X4. On a trail that fits its array and is shorter than 50 * 2^25
    segments, an [add_line] that returns writes inside the array: the
    index written, the old [lineCount], is below the capacity in force
    at the write.  The capacity changes only when the array is exactly
    full; then it doubles without leaving [int], the byte count of the
    new array does not leave [size_t], and [realloc] has granted that
    many bytes.  Afterwards the trail fits again. *)
Theorem add_line_writes_in_bounds
        (realloc_ok : Z -> bool) (ax1 ay1 ax2 ay2 : spec_float)
        (st st' : Globals) :
  trail_fits st ->
  lineCount st < 50 * 2 ^ 25 ->
  add_line realloc_ok ax1 ay1 ax2 ay2 st = Ret st' ->
  0 <= lineCount st < lineCapacity st'
  /\ ((lineCount st < lineCapacity st /\ lineCapacity st' = lineCapacity st)
      \/ (lineCount st = lineCapacity st
          /\ lineCapacity st' = 2 * lineCapacity st
          /\ lineCapacity st' <= INT_MAX
          /\ lineCapacity st' * sizeof_Line <= SIZE_MAX
          /\ realloc_ok (lineCapacity st' * sizeof_Line) = true))
  /\ trail_fits st'.
Proof.
  intros T B H.
  exact (add_line_trail_fits realloc_ok ax1 ay1 ax2 ay2 st st' T B H).
Qed.

Lemma full_state_trail_fits : trail_fits full_state.
Proof.
  split; [vm_compute; discriminate|]. exists 0%nat. split; [lia|reflexivity].
Qed.

Lemma add_line_writes_in_bounds_witness :
  exists st',
    add_line realloc_succeeds f400 f400 f600 f400 full_state = Ret st'
    /\ lineCount full_state = 50
    /\ lineCapacity full_state = 50
    /\ lineCapacity st' = 100
    /\ 0 <= lineCount full_state < lineCapacity st'.
Proof.
  eexists. split; [reflexivity|]. split; [reflexivity|].
  split; [reflexivity|]. split; [reflexivity|].
  eapply (add_line_writes_in_bounds realloc_succeeds f400 f400 f600 f400
                                    full_state).
  - exact full_state_trail_fits.
  - vm_compute. reflexivity.
  - reflexivity.
Defined.

(** At the largest capacity of the doubling sequence, 50 * 2^25, the
    next doubling leaves [int]: the wrapped capacity is negative and the
    request is for 2^64 - 26306674688 bytes. *)
Example add_line_capacity_overflow :
  INT_MAX < 50 * 2 ^ 25 * 2
  /\ to_int (50 * 2 ^ 25 * 2) = -939524096
  /\ to_size_t (to_size_t (-939524096) * sizeof_Line) = 2 ^ 64 - 26306674688.
Proof. repeat split. Qed.

Lemma move_forward_lineCount cos sin realloc_ok dt win st st' :
  move_forward cos sin realloc_ok dt win st = Ret st' ->
  lineCount st <= lineCount st'.
Proof.
  intros H. apply move_forward_lines in H. unfold lineCount.
  destruct H as [[_ ->]|[_ [l ->]]]; [lia|].
  rewrite length_app. cbn [List.length]. lia.
Qed.

Lemma handle_events_lineCount cos sin realloc_ok dt win st running win' st' :
  handle_events cos sin realloc_ok dt win st = Ret (running, win', st') ->
  lineCount st <= lineCount st'.
Proof.
  intros H. apply handle_events_Ret in H.
  destruct H as (st1 & P & F & M).
  apply poll_loop_at_rest in P. destruct P as (_ & _ & _ & L1 & _).
  destruct running.
  - specialize (M eq_refl). apply move_forward_lineCount in M.
    destruct (rotate_left_rest dt st1) as (_ & _ & L2 & _).
    destruct (rotate_right_rest dt (rotate_left dt st1)) as (_ & _ & L3 & _).
    unfold lineCount in *. rewrite L3, L2, L1 in M. exact M.
  - rewrite (F eq_refl). unfold lineCount. rewrite L1. lia.
Qed.

Lemma move_forward_trail_fits cos sin realloc_ok dt win st st' :
  move_forward cos sin realloc_ok dt win st = Ret st' ->
  trail_fits st -> lineCount st' <= 50 * 2 ^ 25 -> trail_fits st'.
Proof.
  unfold move_forward.
  destruct (keyUpPressed st); [|intros [= <-]; trivial].
  destruct (pen _).
  - intros H T B.
    pose proof (add_line_Ret _ _ _ _ _ _ _ H) as [_ L].
    refine (proj2 (proj2 (add_line_trail_fits realloc_ok _ _ _ _ _ _ _ _ H)));
      [exact T|].
    change (lines (update_location cos sin dt (fst win) (snd win) st))
      with (lines st) in L.
    unfold lineCount in *. rewrite L, length_app in B.
    cbn [List.length] in B. rewrite Nat2Z.inj_add in B.
    change (lines (update_location cos sin dt (fst win) (snd win) st))
      with (lines st). lia.
  - intros [= <-]. trivial.
Qed.

Lemma handle_events_trail_fits cos sin realloc_ok dt win st running win' st' :
  handle_events cos sin realloc_ok dt win st = Ret (running, win', st') ->
  trail_fits st -> lineCount st' <= 50 * 2 ^ 25 -> trail_fits st'.
Proof.
  intros H T B. apply handle_events_Ret in H.
  destruct H as (st1 & P & F & M).
  apply poll_loop_at_rest in P.
  pose proof (trail_fits_at_rest _ _ P T) as T1.
  destruct running.
  - eapply move_forward_trail_fits; [exact (M eq_refl)| |exact B].
    destruct (rotate_left_rest dt st1) as (_ & _ & L2 & C2).
    destruct (rotate_right_rest dt (rotate_left dt st1)) as (_ & _ & L3 & C3).
    unfold trail_fits, lineCount. rewrite L3, L2, C3, C2. exact T1.
  - rewrite (F eq_refl). exact T1.
Qed.

Lemma started_trail_fits : trail_fits started.
Proof.
  split; [vm_compute; discriminate|]. exists 0%nat. split; [lia|reflexivity].
Qed.

(** The states [main_loop] passes through are states of [reachable]. *)
Lemma main_loop_reachable cos sin realloc_ok frames :
  forall lastTime win st running lastTime' win' st',
    reachable cos sin realloc_ok (win, st) ->
    main_loop cos sin realloc_ok frames lastTime win st
    = Ret (running, lastTime', win', st') ->
    reachable cos sin realloc_ok (win', st').
Proof.
  induction frames as [|f frames IH];
    intros lastTime win st running lastTime' win' st' R H.
  - cbn [main_loop] in H. injection H as <- <- <- <-. exact R.
  - cbn [main_loop] in H.
    destruct (handle_events cos sin realloc_ok
                (frame_time lastTime (ticks f)) win (enqueue (arrived f) st))
      as [[[r1 win1] st1]|c] eqn:E; cbn [bind] in H; [|discriminate].
    pose proof (reach_frame _ _ _ _ _ _ _ _ _ _ R E) as R1.
    destruct r1.
    + eapply IH; [exact R1|exact H].
    + injection H as <- <- <- <-. exact R1.
Qed.

(** X5. In every state of the main loop whose trail has at most
    50 * 2^25 segments, the trail fits its array: [lineCount] is at most
    [lineCapacity], the capacity is 50 doubled at most 25 times, it is
    an [int] and the byte count of the array is a [size_t].  Up to that
    length no doubling overflows, and no call of [add_line] made by the
    loop writes outside the array. *)
Theorem reachable_trail_fits
        (cos sin : spec_float -> spec_float) (realloc_ok : Z -> bool)
        (ws : (Z * Z) * Globals) :
  reachable cos sin realloc_ok ws ->
  lineCount (snd ws) <= 50 * 2 ^ 25 ->
  lineCount (snd ws) <= lineCapacity (snd ws)
  /\ (exists k : nat,
         (k <= 25)%nat /\ lineCapacity (snd ws) = 50 * 2 ^ Z.of_nat k)
  /\ lineCapacity (snd ws) <= INT_MAX
  /\ lineCapacity (snd ws) * sizeof_Line <= SIZE_MAX.
Proof.
  intros R B.
  assert (trail_fits (snd ws)) as T.
  { revert B.
    induction R as [env ws H | win st evs dt running win' st' R IH H].
    - intros _. apply main_startup_Ret in H. rewrite H.
      exact started_trail_fits.
    - cbn [snd] in *. intros B.
      pose proof (handle_events_lineCount _ _ _ _ _ _ _ _ _ H) as M.
      eapply handle_events_trail_fits; [exact H| |exact B].
      apply IH. unfold lineCount in *.
      cbn [enqueue lines set_event_queue] in M. lia. }
  destruct (trail_fits_bounds _ T) as (_ & I & S).
  destruct T as [F K]. repeat split; assumption.
Qed.

Lemma reachable_trail_fits_witness :
  exists lastTime st',
    main_loop cos_at_zero sin_at_zero realloc_succeeds
              (mkFrame 16 [SDL_KEYDOWN SDLK_d; SDL_KEYDOWN SDLK_UP]
                 :: repeat (mkFrame 16 []) 50)
              0 (800, 800) started
    = Ret (true, lastTime, (800, 800), st')
    /\ lineCount st' = 51
    /\ lineCapacity st' = 100
    /\ lineCount st' <= lineCapacity st'.
Proof.
  eexists. eexists. split; [vm_compute; reflexivity|].
  split; [vm_compute; reflexivity|]. split; [vm_compute; reflexivity|].
  refine (proj1 (reachable_trail_fits
                   cos_at_zero sin_at_zero realloc_succeeds
                   ((800, 800), _) _ _)).
  - eapply (main_loop_reachable cos_at_zero sin_at_zero realloc_succeeds
              (mkFrame 16 [SDL_KEYDOWN SDLK_d; SDL_KEYDOWN SDLK_UP]
                 :: repeat (mkFrame 16 []) 50)
              0 (800, 800) started true).
    + apply (reach_start _ _ _ init_ok). reflexivity.
    + vm_compute. reflexivity.
  - vm_compute. discriminate.
Defined.

(** ** The last event of a kind wins *)

Lemma apply_events_app q1 q2 ws :
  apply_events (q1 ++ q2) ws = apply_events q2 (apply_events q1 ws).
Proof. unfold apply_events. apply fold_left_app. Qed.

Lemma no_quit_app q1 q2 : no_quit (q1 ++ q2) = no_quit q1 && no_quit q2.
Proof. unfold no_quit. apply forallb_app. Qed.

(** Induction over a queue from its end, one applied event at a time. *)
Lemma apply_events_ind (P : list SDL_Event -> (Z * Z) * Globals -> Prop) ws :
  P [] ws ->
  (forall q evt win st win' st',
      no_quit q = true ->
      apply_events q ws = (win, st) -> P q (win, st) ->
      dispatch evt win st = Some (win', st') ->
      P (q ++ [evt]) (win', st')) ->
  forall q, no_quit q = true -> P q (apply_events q ws).
Proof.
  intros H0 HS q. induction q as [|evt q IH] using rev_ind; intros N.
  - exact H0.
  - rewrite no_quit_app in N. apply andb_prop in N. destruct N as [Nq Ne].
    rewrite apply_events_app.
    destruct (apply_events q ws) as [win st] eqn:E.
    unfold apply_events at 1. simpl. unfold apply_event. simpl.
    destruct (dispatch evt win st) as [[win' st']|] eqn:D.
    + eapply HS; eauto.
    + apply dispatch_None in D. simpl in Ne. rewrite D in Ne. discriminate.
Qed.

Lemma apply_events_last_wins win st q :
  no_quit q = true -> last_wins win st q (apply_events q (win, st)).
Proof.
  apply (apply_events_ind (last_wins win st)).
  - repeat split.
  - intros q0 evt w s w' s' N E (KU & KL & KR & KP & KC & KW) D.
    unfold last_wins, last_key, last_pen, last_color, last_resize.
    rewrite !fold_left_app. cbn [fold_left].
    fold (last_key is_UP q0) (last_key is_LEFT q0) (last_key is_RIGHT q0)
         (last_pen q0) (last_color q0) (last_resize q0).
    cbn [fst snd] in *.
    destruct evt as [|sym|sym|event d1' d2'|t];
      try destruct sym; try destruct event;
      try discriminate; injection D as <- <-;
      cbn [is_UP is_LEFT is_RIGHT resolve palette];
      repeat split; assumption || reflexivity.
Qed.

Lemma handle_events_last_wins cos sin realloc_ok dt win st win' st' :
  handle_events cos sin realloc_ok dt win st = Ret (true, win', st') ->
  last_wins win st (event_queue st) (win', st').
Proof.
  intros H. apply handle_events_Ret in H.
  destruct H as (st1 & P & _ & T). specialize (T eq_refl).
  pose proof (poll_loop_running (event_queue st) win st) as N.
  rewrite P in N. simpl in N. symmetry in N.
  rewrite (poll_loop_drain _ win st N) in P.
  injection P as <- <-.
  pose proof (apply_events_last_wins win st (event_queue st) N)
    as (KU & KL & KR & KP & KC & KW).
  pose proof (level_blocks_controls _ _ _ _ _ _ _ T)
    as (CL & CR & CU & CP & CC & _).
  unfold last_wins. cbn [fst snd] in *.
  rewrite CU, CL, CR, CP, CC.
  repeat split; assumption.
Qed.

(** X6. After a call of [handle_events] that returns true, each of the
    Up, Left and Right keys is held exactly when the last pending event
    for that key was a press; a key without a pending event is held as
    it was before the call.  So a press and a release of a key that
    arrive in one frame leave the key released. *)
Theorem handle_events_held_keys
        (cos sin : spec_float -> spec_float) (realloc_ok : Z -> bool)
        (deltaTime : spec_float) (win : Z * Z) (st : Globals)
        (win' : Z * Z) (st' : Globals) :
  handle_events cos sin realloc_ok deltaTime win st
  = Ret (true, win', st') ->
  keyUpPressed st'
  = resolve (last_key is_UP (event_queue st)) (keyUpPressed st)
  /\ keyLeftPressed st'
     = resolve (last_key is_LEFT (event_queue st)) (keyLeftPressed st)
  /\ keyRightPressed st'
     = resolve (last_key is_RIGHT (event_queue st)) (keyRightPressed st).
Proof.
  intros H. apply handle_events_last_wins in H.
  destruct H as (KU & KL & KR & _). repeat split; assumption.
Qed.

Lemma handle_events_held_keys_witness :
  exists st',
    handle_events cos_at_zero sin_at_zero realloc_succeeds f1 (800, 800)
      (enqueue [SDL_KEYDOWN SDLK_UP; SDL_KEYDOWN SDLK_LEFT; SDL_KEYUP SDLK_UP]
               started)
    = Ret (true, (800, 800), st')
    /\ keyUpPressed st' = false
    /\ keyLeftPressed st' = true
    /\ keyRightPressed st' = false.
Proof.
  eexists. split; [reflexivity|].
  apply (handle_events_held_keys
           cos_at_zero sin_at_zero realloc_succeeds f1 (800, 800)
           (enqueue [SDL_KEYDOWN SDLK_UP; SDL_KEYDOWN SDLK_LEFT;
                     SDL_KEYUP SDLK_UP] started)
           (800, 800)).
  reflexivity.
Defined.

(** X7. After a call of [handle_events] that returns true, the pen is
    as the last pending [D] or [U] key set it, the colour is the palette
    entry of the last pending colour key, and the window size is the one
    of the last pending resize event; each is as before the call when no
    such event was pending. *)
Theorem handle_events_last_command_wins
        (cos sin : spec_float -> spec_float) (realloc_ok : Z -> bool)
        (deltaTime : spec_float) (win : Z * Z) (st : Globals)
        (win' : Z * Z) (st' : Globals) :
  handle_events cos sin realloc_ok deltaTime win st
  = Ret (true, win', st') ->
  pen (sprite st') = resolve (last_pen (event_queue st)) (pen (sprite st))
  /\ rgb (sprite st')
     = resolve (last_color (event_queue st)) (rgb (sprite st))
  /\ win' = resolve (last_resize (event_queue st)) win.
Proof.
  intros H. apply handle_events_last_wins in H.
  destruct H as (_ & _ & _ & KP & KC & KW). repeat split; assumption.
Qed.

Lemma handle_events_last_command_wins_witness :
  exists st',
    handle_events cos_at_zero sin_at_zero realloc_succeeds f1 (800, 800)
      (enqueue [SDL_KEYDOWN SDLK_d; SDL_KEYDOWN SDLK_3;
                SDL_WINDOWEVENT SDL_WINDOWEVENT_RESIZED 640 480;
                SDL_KEYDOWN SDLK_u; SDL_KEYDOWN SDLK_5;
                SDL_WINDOWEVENT SDL_WINDOWEVENT_RESIZED 1024 768]
               started)
    = Ret (true, (1024, 768), st')
    /\ pen (sprite st') = false
    /\ rgb (sprite st') = yellow.
Proof.
  eexists. split; [reflexivity|].
  destruct (handle_events_last_command_wins
              cos_at_zero sin_at_zero realloc_succeeds f1 (800, 800)
              (enqueue [SDL_KEYDOWN SDLK_d; SDL_KEYDOWN SDLK_3;
                        SDL_WINDOWEVENT SDL_WINDOWEVENT_RESIZED 640 480;
                        SDL_KEYDOWN SDLK_u; SDL_KEYDOWN SDLK_5;
                        SDL_WINDOWEVENT SDL_WINDOWEVENT_RESIZED 1024 768]
                       started)
              (1024, 768) _ eq_refl) as (P & C & _).
  split; assumption.
Defined.

(** ** Order of the updates within a call *)

Lemma move_forward_position cos sin realloc_ok dt win st st' :
  keyUpPressed st = true ->
  move_forward cos sin realloc_ok dt win st = Ret st' ->
  sprite st' = sprite (update_location cos sin dt (fst win) (snd win) st).
Proof.
  unfold move_forward. intros ->.
  destruct (pen _).
  - intros H. apply add_line_Ret in H. apply H.
  - intros [= <-]. reflexivity.
Qed.

(** X8. In a call of [handle_events] that returns true with the Up key
    held at its end, the turn comes before the move and a resize before
    the clamp: the new position is the old position displaced along the
    heading the call ends with, clamped against the window size the call
    ends with. *)
Theorem handle_events_turn_resize_then_move
        (cos sin : spec_float -> spec_float) (realloc_ok : Z -> bool)
        (deltaTime : spec_float) (win : Z * Z) (st : Globals)
        (win' : Z * Z) (st' : Globals) :
  handle_events cos sin realloc_ok deltaTime win st
  = Ret (true, win', st') ->
  keyUpPressed st' = true ->
  x (sprite st')
  = clamp (fst win')
          (F32.add (x (sprite st))
                   (displacement_x cos (angle (sprite st')) deltaTime))
  /\ y (sprite st')
     = clamp (snd win')
             (F32.add (y (sprite st))
                      (displacement_y sin (angle (sprite st')) deltaTime)).
Proof.
  intros H U. apply handle_events_Ret in H.
  destruct H as (st1 & P & _ & T). specialize (T eq_refl).
  apply poll_loop_at_rest in P. destruct P as (Px & Py & _).
  pose proof (move_forward_controls _ _ _ _ _ _ _ T) as (_ & _ & KU & _).
  rewrite KU in U.
  rewrite (move_forward_position _ _ _ _ _ _ _ U T).
  rewrite update_location_clamp. cbn [x y angle set_xy].
  destruct (rotate_left_rest deltaTime st1) as (Lx & Ly & _).
  destruct (rotate_right_rest deltaTime (rotate_left deltaTime st1))
    as (Rx & Ry & _).
  rewrite Rx, Ry, Lx, Ly, Px, Py. split; reflexivity.
Qed.

Lemma handle_events_turn_resize_then_move_witness :
  exists st',
    handle_events cos_at_zero sin_at_zero realloc_succeeds f1 (800, 800)
      (enqueue [SDL_WINDOWEVENT SDL_WINDOWEVENT_RESIZED 500 500;
                SDL_KEYDOWN SDLK_UP] started)
    = Ret (true, (500, 500), st')
    /\ x (sprite st') = F32.of_int 475.
Proof.
  eexists. split; [reflexivity|].
  destruct (handle_events_turn_resize_then_move
              cos_at_zero sin_at_zero realloc_succeeds f1 (800, 800)
              (enqueue [SDL_WINDOWEVENT SDL_WINDOWEVENT_RESIZED 500 500;
                        SDL_KEYDOWN SDLK_UP] started)
              (500, 500) _ eq_refl eq_refl) as [X _].
  exact X.
Defined.

(** ** Positions inside the window *)

Lemma leb_true_ltb_false a b : SFleb a b = true -> SFltb b a = false.
Proof.
  unfold SFleb, SFltb. rewrite (SFcompare_antisym a b).
  destruct (SFcompare a b) as [[| |]|]; simpl; congruence.
Qed.

Lemma clamp_inside_id w v :
  F32.leb f0 (F32.sub v f25) = true ->
  F32.leb (F32.add v f25) (F32.of_int w) = true ->
  clamp w v = v.
Proof.
  intros Lo Hi. unfold clamp, F32.ltb, F32.gtb.
  rewrite (leb_true_ltb_false _ _ Lo), (leb_true_ltb_false _ _ Hi).
  reflexivity.
Qed.

(** X9. [update_location] clamps only what is outside: when the box of
    the position before clamping passes the program's own tests
    (0 <= x - 25, x + 25 <= width, and so for y), that position is
    stored as it is, for every window size. *)
Theorem update_location_keeps_inside
        (cos sin : spec_float -> spec_float) (deltaTime : spec_float)
        (windowWidth windowHeight : Z) (st : Globals) :
  box_inside windowWidth windowHeight
             (set_xy (candidate_x cos deltaTime (sprite st))
                     (candidate_y sin deltaTime (sprite st)) (sprite st))
  = true ->
  sprite (update_location cos sin deltaTime windowWidth windowHeight st)
  = set_xy (candidate_x cos deltaTime (sprite st))
           (candidate_y sin deltaTime (sprite st)) (sprite st).
Proof.
  unfold box_inside. cbn [x y set_xy]. intros B.
  apply andb_prop in B. destruct B as [B Y2].
  apply andb_prop in B. destruct B as [B Y1].
  apply andb_prop in B. destruct B as [X1 X2].
  rewrite update_location_clamp.
  fold (candidate_x cos deltaTime (sprite st)).
  fold (candidate_y sin deltaTime (sprite st)).
  rewrite (clamp_inside_id _ _ X1 X2), (clamp_inside_id _ _ Y1 Y2).
  reflexivity.
Qed.

Lemma update_location_keeps_inside_witness :
  sprite (update_location cos_at_zero sin_at_zero f1 800 800 scenario_state)
  = set_xy f600 f400 (sprite scenario_state).
Proof.
  apply (update_location_keeps_inside cos_at_zero sin_at_zero f1 800 800
                                      scenario_state).
  reflexivity.
Defined.

(** ** The frame time *)

Lemma binary_round_aux_nonneg prec emax m e l :
  0 <= m -> is_nonneg (binary_round_aux prec emax false m e l) = true.
Proof.
  intros H. unfold binary_round_aux.
  pose proof (shr_fexp_nonneg prec emax m e l H) as H1.
  destruct (shr_fexp prec emax m e l) as [mrs' e'].
  pose proof (shr_fexp_nonneg prec emax
                (round_nearest_even (shr_m mrs') (loc_of_shr_record mrs'))
                e' loc_Exact
                (round_nearest_even_nonneg _ _ H1)) as H2.
  destruct (shr_fexp prec emax _ e' loc_Exact) as [mrs'' e''].
  simpl in H2. destruct (shr_m mrs'') as [|p|p].
  - reflexivity.
  - destruct (e'' <=? emax - prec); reflexivity.
  - lia.
Qed.

Lemma of_int_nonneg n : 0 <= n -> is_nonneg (F32.of_int n) = true.
Proof.
  intros H. unfold F32.of_int, binary_normalize, binary_round.
  destruct n as [|p|p]; [reflexivity| |lia].
  destruct (shl_align _ _ _) as [mz ez].
  apply binary_round_aux_nonneg. lia.
Qed.

Lemma div_core_nonneg prec emax m1 e1 m2 e2 :
  0 <= fst (fst (SFdiv_core_binary prec emax (Zpos m1) e1 (Zpos m2) e2)).
Proof.
  unfold SFdiv_core_binary.
  set (s := _ - _ - _).
  set (m' := match s with Zpos _ => Z.shiftl (Zpos m1) s | 0 => Zpos m1
                     | Zneg _ => 0 end).
  assert (0 <= m') as M.
  { unfold m'. destruct s; try lia. apply Z.shiftl_nonneg. lia. }
  pose proof (Z.div_pos m' (Zpos m2) M ltac:(lia)) as Q.
  unfold Z.div in Q.
  destruct (Z.div_eucl m' (Zpos m2)) as [q r]. exact Q.
Qed.

Lemma div_nonneg a s m e :
  is_nonneg a = true -> s = false ->
  is_nonneg (F32.div a (S754_finite s m e)) = true.
Proof.
  intros A ->. unfold F32.div, SFdiv.
  destruct a as [sa|sa| |sa ma ea]; try discriminate.
  - reflexivity.
  - destruct sa; [discriminate|reflexivity].
  - destruct sa; [discriminate|].
    pose proof (div_core_nonneg F32.prec F32.emax ma ea m e) as Q.
    destruct (SFdiv_core_binary _ _ _ _ _ _) as [[mz ez] lz].
    apply binary_round_aux_nonneg. exact Q.
Qed.

Lemma is_nonneg_leb f : is_nonneg f = true -> F32.leb f0 f = true.
Proof.
  destruct f as [[|]|[|]| |[|] m e]; intros H; try discriminate; reflexivity.
Qed.

(** X10. The frame time that [main] passes to [handle_events] is never
    negative and never NaN, whatever the two readings of the millisecond
    clock, also when the 32-bit clock wrapped around between them. *)
Theorem frame_time_nonneg (lastTime currentTime : Z) :
  F32.leb f0 (frame_time lastTime currentTime) = true
  /\ is_nan (frame_time lastTime currentTime) = false.
Proof.
  assert (is_nonneg (frame_time lastTime currentTime) = true) as N.
  { unfold frame_time. apply div_nonneg; [|reflexivity].
    apply of_int_nonneg. apply Z.mod_pos_bound. reflexivity. }
  split; [apply is_nonneg_leb; exact N|].
  destruct (frame_time lastTime currentTime) as [[|]|[|]| |[|] m e];
    try reflexivity; discriminate.
Qed.

(** A clock that wrapped from 2^32 - 10 to 6 gives 16 ms. *)
Example frame_time_wrapped :
  frame_time (2 ^ 32 - 10) 6 = F32.div (F32.of_int 16) f1000.
Proof. reflexivity. Qed.

(** ** The main loop *)

Lemma add_line_Exit realloc_ok ax1 ay1 ax2 ay2 st code :
  add_line realloc_ok ax1 ay1 ax2 ay2 st = Exit code ->
  code = 1
  /\ realloc_ok (to_size_t (to_size_t (to_int (lineCapacity st * 2))
                            * sizeof_Line)) = false.
Proof.
  unfold add_line.
  destruct (lineCount st >=? lineCapacity st); cbn [bind]; [|discriminate].
  cbn [lineCapacity set_lineCapacity].
  destruct (realloc_ok _) eqn:R; cbn [bind]; [discriminate|].
  intros [= <-]. split; reflexivity.
Qed.







(** With [SDL_Init] failing, which SDL reports by a negative result,
    the test [> 0] does not fire: start-up goes on, and when the other
    calls succeed and a quit request arrives the exit status is 0. *)
Example main_misses_SDL_Init_failure :
  main cos_at_zero sin_at_zero realloc_succeeds
       (mkInitEnv (-1) true true IMG_INIT_PNG 0 true true true)
       [mkFrame 16 [SDL_QUIT]] = Some 0.
Proof. reflexivity. Qed.



(** * The status overlay *)

Lemma append_assoc (a b c : string) : ((a ++ b) ++ c = a ++ (b ++ c))%string.
Proof. induction a as [|ch a IH]; simpl; [reflexivity|]. rewrite IH. reflexivity. Qed.

Lemma append_nil_r (a : string) : (a ++ "")%string = a.
Proof. induction a as [|ch a IH]; simpl; [reflexivity|]. rewrite IH. reflexivity. Qed.

(** A run without newline is read into the token. *)
Lemma strtok_all_run a : forall rest token,
  no_newline a = true ->
  strtok_all (a ++ rest) token = strtok_all rest (token ++ a).
Proof.
  induction a as [|c a IH]; intros rest token N; simpl.
  - rewrite append_nil_r. reflexivity.
  - simpl in N. apply andb_prop in N. destruct N as [C N].
    apply negb_true_iff in C. rewrite C.
    rewrite IH by exact N. rewrite append_assoc. reflexivity.
Qed.

(** A newline after a token that is not empty ends it. *)
Lemma strtok_all_newline rest token :
  token <> EmptyString ->
  strtok_all (nl ++ rest) token = token :: strtok_all rest EmptyString.
Proof. destruct token; [congruence|reflexivity]. Qed.

Lemma no_newline_app a b :
  no_newline (a ++ b) = no_newline a && no_newline b.
Proof.
  induction a as [|c a IH]; simpl; [reflexivity|].
  rewrite IH. rewrite andb_assoc. reflexivity.
Qed.

Lemma no_newline_pen_name s : no_newline (pen_name s) = true.
Proof. unfold pen_name. destruct (pen s); reflexivity. Qed.

Lemma no_newline_color_name s : no_newline (color_name s) = true.
Proof.
  unfold color_name.
  repeat match goal with
         | |- context [if ?c then _ else _] => destruct c
         end; reflexivity.
Qed.

(** X12. When the conversions of the three numbers contain no newline,
    the status text is split into exactly four lines, in this order:
    the position, the heading, the pen state and the colour name. *)
Theorem status_text_four_lines
        (fmt : spec_float -> string) (s : Sprite) :
  (forall v, no_newline (fmt v) = true) ->
  split_lines (status_text fmt s)
  = [ ("Position: (" ++ fmt (x s) ++ ", " ++ fmt (y s) ++ ")")%string;
      ("Angle: " ++ fmt (angle s) ++ " degrees")%string;
      ("Pen: " ++ pen_name s)%string;
      ("Line Color: " ++ color_name s)%string ].
Proof.
  intros N. unfold split_lines, status_text.
  rewrite (strtok_all_run "Position: (") by reflexivity.
  rewrite (strtok_all_run (fmt (x s))) by apply N.
  rewrite (strtok_all_run ", ") by reflexivity.
  rewrite (strtok_all_run (fmt (y s))) by apply N.
  rewrite (strtok_all_run ")") by reflexivity.
  rewrite strtok_all_newline
    by (cbn [append]; discriminate).
  rewrite (strtok_all_run "Angle: ") by reflexivity.
  rewrite (strtok_all_run (fmt (angle s))) by apply N.
  rewrite (strtok_all_run " degrees") by reflexivity.
  rewrite strtok_all_newline
    by (cbn [append]; discriminate).
  rewrite (strtok_all_run "Pen: ") by reflexivity.
  rewrite (strtok_all_run (pen_name s)) by apply no_newline_pen_name.
  rewrite strtok_all_newline
    by (cbn [append]; discriminate).
  rewrite <- (append_nil_r (color_name s)) at 1.
  rewrite (strtok_all_run "Line Color: ") by reflexivity.
  rewrite (strtok_all_run (color_name s)) by apply no_newline_color_name.
  cbn [strtok_all].
  change (("" ++ "Line Color: ")%string) with "Line Color: "%string.
  cbn [append firstn].
  rewrite !append_assoc. reflexivity.
Qed.

Lemma status_text_four_lines_witness :
  split_lines (status_text (fun _ => "0.0"%string) (sprite started))
  = [ "Position: (0.0, 0.0)"%string; "Angle: 0.0 degrees"%string;
      "Pen: Up"%string; "Line Color: Black"%string ].
Proof.
  apply (status_text_four_lines (fun _ => "0.0"%string) (sprite started)).
  intros v. reflexivity.
Defined.

(** X13. A line that [render_text] fails to render (texture 0) is left
    out of the overlay and takes no room: the quads drawn are those of
    the lines that do render, laid out as if the failed lines were not
    there. *)
Theorem text_loop_skips_failed_lines
        (render_text : string -> Z * Z * Z) (linesText : list string)
        (textY : spec_float) :
  text_loop render_text linesText textY
  = text_loop render_text (filter (renders render_text) linesText) textY.
Proof.
  revert textY. induction linesText as [|line rest IH]; intros textY.
  - reflexivity.
  - cbn [text_loop filter]. unfold renders at 1.
    destruct (render_text line) as [[id w] h] eqn:R. cbn [fst snd].
    destruct (negb (id =? 0)) eqn:T.
    + cbn [text_loop]. rewrite R, T. f_equal. apply IH.
    + apply IH.
Qed.

Lemma add_of_int a b :
  0 < a -> 0 < b -> a + b < 2 ^ 24 ->
  F32.add (F32.of_int a) (F32.of_int b) = F32.of_int (a + b).
Proof.
  intros Ha Hb H.
  destruct a as [|a|a]; try lia. destruct b as [|b|b]; try lia.
  unfold F32.of_int, F32.add, F32.prec, F32.emax.
  rewrite !of_int_Fpos by lia.
  change (Zpos a + Zpos b) with (Zpos (a + b)).
  rewrite of_int_Fpos by lia. apply add_Fpos. lia.
Qed.

(** X14. When the lines that render have positive heights and the
    overlay stays below 2^24, the vertical layout is exact: with the
    first line at [textY], every quad has its top at the bottom of the
    quad before it plus 2, and its bottom at its top plus the height of
    its line, as [rows] computes them in integers. *)
Theorem text_loop_rows
        (render_text : string -> Z * Z * Z) (linesText : list string)
        (textY : Z) :
  0 < textY ->
  (forall line, In line linesText -> renders render_text line = true ->
                0 < line_height render_text line) ->
  (forall row, In row (rows render_text linesText textY) ->
               snd row + 2 < 2 ^ 24) ->
  map (fun q => (quad_top q, quad_bottom q))
      (text_loop render_text linesText (F32.of_int textY))
  = map (fun row => (F32.of_int (fst row), F32.of_int (snd row)))
        (rows render_text linesText textY).
Proof.
  revert textY. induction linesText as [|line rest IH]; intros textY Y Hall B.
  - reflexivity.
  - cbn [text_loop rows]. unfold renders, line_height in *.
    pose proof (Hall line (or_introl eq_refl)) as H.
    cbn [rows] in B. unfold renders, line_height in B.
    destruct (render_text line) as [[id w] h] eqn:R. cbn [fst snd] in *.
    destruct (negb (id =? 0)) eqn:T.
    + specialize (H eq_refl).
      pose proof (B _ (or_introl eq_refl)) as B1. cbn [snd] in B1.
      cbn [map quad_top quad_bottom fst snd].
      change f2 with (F32.of_int 2).
      rewrite (add_of_int h 2) by lia.
      rewrite (add_of_int textY (h + 2)) by lia.
      rewrite (add_of_int textY h) by lia.
      replace (textY + (h + 2)) with (textY + h + 2) by lia.
      f_equal. apply IH.
      * lia.
      * intros l I. apply Hall. right. exact I.
      * intros row I. apply B. right. exact I.
    + apply IH; [exact Y| |exact B].
      intros l I. apply Hall. right. exact I.
Qed.

Lemma text_loop_rows_witness :
  map (fun q => (quad_top q, quad_bottom q))
      (text_loop sample_render_text sample_lines (F32.of_int 10))
  = [ (F32.of_int 10, F32.of_int 24); (F32.of_int 26, F32.of_int 40);
      (F32.of_int 42, F32.of_int 56) ].
Proof.
  apply (text_loop_rows sample_render_text sample_lines 10).
  - lia.
  - intros line _ _. reflexivity.
  - intros row [<- | [<- | [<- | []]]]; simpl; lia.
Defined.

Lemma length_append (a b : string) :
  String.length (a ++ b) = (String.length a + String.length b)%nat.
Proof. induction a as [|c a IH]; simpl; [reflexivity|]. rewrite IH. reflexivity. Qed.

Lemma length_pen_name s : (String.length (pen_name s) <= 4)%nat.
Proof. unfold pen_name. destruct (pen s); simpl; lia. Qed.

Lemma length_color_name s : (String.length (color_name s) <= 6)%nat.
Proof.
  unfold color_name.
  repeat match goal with
         | |- context [if ?c then _ else _] => destruct c
         end; simpl; lia.
Qed.

(** X15. When each of the three converted numbers is at most 65
    characters long, the status text is at most 254 characters long: with
    its terminating zero it fits the 256 bytes of [statusText]. *)
Theorem status_text_fits_buffer
        (fmt : spec_float -> string) (s : Sprite) :
  (forall v, (String.length (fmt v) <= 65)%nat) ->
  (String.length (status_text fmt s) + 1 <= 256)%nat.
Proof.
  intros N. unfold status_text.
  rewrite !length_append.
  pose proof (N (x s)). pose proof (N (y s)). pose proof (N (angle s)).
  pose proof (length_pen_name s). pose proof (length_color_name s).
  change (String.length nl) with 1%nat.
  change (String.length "Position: (") with 11%nat.
  change (String.length ", ") with 2%nat.
  change (String.length ")") with 1%nat.
  change (String.length "Angle: ") with 7%nat.
  change (String.length " degrees") with 8%nat.
  change (String.length "Pen: ") with 5%nat.
  change (String.length "Line Color: ") with 12%nat.
  lia.
Qed.

Lemma status_text_fits_buffer_witness :
  (String.length (status_text (fun _ => "0.0"%string) (sprite started)) + 1
   <= 256)%nat.
Proof.
  apply (status_text_fits_buffer (fun _ => "0.0"%string) (sprite started)).
  intros v. simpl. lia.
Defined.

(** * The wrap of the heading *)

(** A finite number that the format represents, in any mantissa and
    exponent, rounds to its canonical form. *)
Lemma binary_round_representable s m e :
  Zpos (digits2_pos m) <= 24 -> -149 <= e ->
  Zpos (digits2_pos m) + e <= 128 ->
  let e0 := Z.max (Zpos (digits2_pos m) + e - 24) (-149) in
  binary_round 24 128 s m e
  = S754_finite s (Z.to_pos (Zpos m * 2 ^ (e - e0))) e0.
Proof.
  intros D E U e0.
  assert (e0 <= e) as Le by (unfold e0; lia).
  assert (Zpos (Z.to_pos (Zpos m * 2 ^ (e - e0))) = Zpos m * 2 ^ (e - e0)) as M.
  { apply Z2Pos.id. pose proof (pow2_pos (e - e0)). nia. }
  apply binary_round_exact.
  - unfold bounded, canonical_mantissa. apply andb_true_intro. split.
    + apply Z.eqb_eq.
      rewrite (digits_scaled _ m (e - e0)) by (lia || exact M).
      unfold fexp, emin. fold e0. unfold e0. lia.
    + apply Z.leb_le. unfold e0. lia.
  - right. split; [exact Le|]. exact M.
Qed.

Lemma digits_le_24 p : Zpos p < 2 ^ 24 -> 1 <= Zpos (digits2_pos p) <= 24.
Proof. intros H. exact (size_range p H). Qed.

Lemma bounded_inv m e :
  bounded 24 128 m e = true ->
  Zpos m < 2 ^ 24 /\ -149 <= e <= 104
  /\ (Zpos (digits2_pos m) = 24 \/ e = -149).
Proof.
  unfold bounded, canonical_mantissa, fexp, emin. intros B.
  apply andb_prop in B. destruct B as [C L].
  apply Z.eqb_eq in C. apply Z.leb_le in L.
  assert (Zpos (digits2_pos m) <= 24) as D by lia.
  split; [|lia].
  rewrite digits2_pos_log2 in D.
  apply Z.log2_lt_pow2; lia.
Qed.

Lemma binary_round_bounded s m e :
  bounded 24 128 m e = true -> binary_round 24 128 s m e = S754_finite s m e.
Proof.
  intros B. apply binary_round_exact; [exact B|].
  left. split; [lia|]. rewrite Z.sub_diag. simpl. lia.
Qed.

Lemma pos_lt_of_Z p q : Z.pos p < Z.pos q -> (p < q)%positive.
Proof. intros H. unfold Pos.lt. rewrite Pos2Z.inj_compare. exact H. Qed.

(** [fmodf(x, 360.0f)] of a finite number keeps the sign of x and is
    zero or smaller than 360 in magnitude. *)
Lemma fmodf_360_form s m e :
  bounded 24 128 m e = true ->
  fmodf (S754_finite s m e) f360 = S754_zero s
  \/ exists m0 e0,
      fmodf (S754_finite s m e) f360 = S754_finite s m0 e0
      /\ (e0 < -15 \/ (e0 = -15 /\ (m0 < 11796480)%positive)).
Proof.
  intros B. pose proof (bounded_inv m e B) as (M & E & _).
  unfold fmodf, f360, F32.prec, F32.emax.
  destruct (Z_lt_le_dec e (-15)) as [Lt|Ge].
  - right. exists m, e.
    rewrite (Z.min_l e (-15)) by lia.
    rewrite Z.sub_diag, Z.pow_0_r, Z.mul_1_r.
    rewrite Z.rem_small.
    + split; [|left; exact Lt].
      destruct s; cbn [cond_Zopp Z.opp binary_normalize];
        apply binary_round_bounded; exact B.
    + split; [lia|].
      assert (2 ^ 1 <= 2 ^ (-15 - e)) by (apply Z.pow_le_mono_r; lia).
      change (2 ^ 1) with 2 in *. change (2 ^ 24) with 16777216 in *. nia.
  - rewrite (Z.min_r e (-15)) by lia.
    rewrite Z.sub_diag, Z.pow_0_r, Z.mul_1_r.
    set (nx := Zpos m * 2 ^ (e - -15)).
    assert (0 <= nx) as Nx.
    { unfold nx. pose proof (pow2_pos (e - -15)). nia. }
    pose proof (Z.rem_bound_pos nx 11796480 Nx ltac:(lia)) as R.
    destruct (Z.rem nx 11796480) as [|p|p]; [| |lia].
    + left. destruct s; reflexivity.
    + right.
      assert (Zpos p < 2 ^ 24) as P by (change (2 ^ 24) with 16777216; lia).
      pose proof (digits_le_24 p P) as D.
      exists (Z.to_pos (Zpos p * 2 ^ (-15 - (Zpos (digits2_pos p) + -15 - 24)))),
             (Zpos (digits2_pos p) + -15 - 24).
      split.
      * pose proof (binary_round_representable s p (-15)
                      ltac:(lia) ltac:(lia) ltac:(lia)) as Q.
        cbv zeta in Q.
        rewrite (Z.max_l (Zpos (digits2_pos p) + -15 - 24) (-149)) in Q by lia.
        destruct s; cbn [cond_Zopp Z.opp binary_normalize]; exact Q.
      * destruct (Z.eq_dec (Zpos (digits2_pos p)) 24) as [Eq|Ne]; [|left; lia].
        right. split; [lia|].
        replace (-15 - (Zpos (digits2_pos p) + -15 - 24)) with 0 by lia.
        rewrite Z.pow_0_r, Z.mul_1_r. cbn [Z.to_pos].
        apply pos_lt_of_Z. exact (proj2 R).
Qed.

(** Of a number that is not negative it is in [0, 360). *)
Lemma fmodf_360_range m e :
  bounded 24 128 m e = true ->
  F32.leb f0 (fmodf (S754_finite false m e) f360) = true
  /\ F32.ltb (fmodf (S754_finite false m e) f360) f360 = true.
Proof.
  intros B.
  destruct (fmodf_360_form false m e B) as [-> | (m0 & e0 & -> & C)].
  - split; reflexivity.
  - split; [reflexivity|].
    unfold F32.ltb, SFltb, SFcompare, f360.
    destruct C as [L|[-> L]].
    + destruct (Z.compare_spec e0 (-15)); first [reflexivity | lia].
    + rewrite Z.compare_refl, Pos.compare_cont_spec.
      cbn [Pos.switch_Eq].
      destruct (Pos.compare_spec m0 11796480) as [Q|Q|Q]; [|reflexivity|].
      * rewrite Q in L. destruct (Pos.lt_irrefl _ L).
      * destruct (Pos.lt_irrefl _ (Pos.lt_trans _ _ _ L Q)).
Qed.

(** Of a negative number it is in (-360, 0]. *)
Lemma fmodf_360_range_neg m e :
  bounded 24 128 m e = true ->
  F32.leb (fmodf (S754_finite true m e) f360) f0 = true
  /\ F32.ltb (F32.neg f360) (fmodf (S754_finite true m e) f360) = true.
Proof.
  intros B.
  destruct (fmodf_360_form true m e B) as [-> | (m0 & e0 & -> & C)].
  - split; reflexivity.
  - split; [reflexivity|].
    unfold F32.ltb, SFltb, SFcompare, f360, F32.neg, SFopp. cbn [negb].
    destruct C as [L|[-> L]].
    + destruct (Z.compare_spec (-15) e0); first [reflexivity | lia].
    + rewrite Z.compare_refl, Pos.compare_cont_spec.
      cbn [Pos.switch_Eq].
      destruct (Pos.compare_spec 11796480 m0) as [Q|Q|Q]; [| |reflexivity].
      * rewrite <- Q in L. destruct (Pos.lt_irrefl _ L).
      * destruct (Pos.lt_irrefl _ (Pos.lt_trans _ _ _ L Q)).
Qed.

(** ** Results of rounding are canonical *)

Lemma shr_1_div2 mrs : 0 <= shr_m mrs -> shr_m (shr_1 mrs) = Z.div2 (shr_m mrs).
Proof.
  destruct mrs as [m r s]. destruct m as [|[p|p|]|p]; simpl; try reflexivity.
  lia.
Qed.

Lemma shr_m_iter p : forall mrs,
  0 <= shr_m mrs ->
  shr_m (Pos.iter shr_1 mrs p) = Z.shiftr (shr_m mrs) (Zpos p).
Proof.
  induction p as [|p IH] using Pos.peano_ind; intros mrs H.
  - simpl. rewrite shr_1_div2 by exact H. reflexivity.
  - rewrite Pos.iter_succ.
    assert (0 <= shr_m (Pos.iter shr_1 mrs p)) as N.
    { apply Pos.iter_invariant; [apply shr_1_nonneg|exact H]. }
    rewrite shr_1_div2 by exact N. rewrite IH by exact H.
    rewrite Pos2Z.inj_succ, Z.div2_spec, Z.shiftr_shiftr by lia.
    reflexivity.
Qed.

Lemma shr_spec mrs e n :
  0 <= shr_m mrs -> 0 <= n ->
  shr_m (fst (shr mrs e n)) = shr_m mrs / 2 ^ n
  /\ snd (shr mrs e n) = e + n.
Proof.
  intros H N. destruct n as [|p|p]; try lia.
  - cbn [shr fst snd]. rewrite Z.pow_0_r, Z.div_1_r, Z.add_0_r.
    split; reflexivity.
  - cbn [shr fst snd]. rewrite iter_pos_iter, shr_m_iter by exact H.
    rewrite Z.shiftr_div_pow2 by lia. split; reflexivity.
Qed.

Lemma Zdigits2_log2 z : 0 < z -> Zdigits2 z = Z.log2 z + 1.
Proof.
  destruct z as [|p|p]; try lia. intros _. cbn [Zdigits2].
  rewrite digits2_pos_log2. lia.
Qed.

Lemma Zdigits2_nonneg z : 0 <= Zdigits2 z.
Proof. destruct z; simpl; lia. Qed.

(** The digits of a shifted mantissa. *)
Lemma Zdigits2_shift m n :
  0 < m -> 0 <= n ->
  Zdigits2 (m / 2 ^ n) = Z.max 0 (Zdigits2 m - n).
Proof.
  intros M N. rewrite (Zdigits2_log2 m M).
  pose proof (Z.log2_nonneg m) as L.
  pose proof (pow2_pos n N) as P.
  destruct (Z_lt_le_dec (Z.log2 m) n) as [Lt|Ge].
  - assert (m < 2 ^ n) as B by (apply Z.log2_lt_pow2; lia).
    rewrite Z.div_small by lia. simpl. lia.
  - assert (2 ^ n <= m) as B by (apply Z.log2_le_pow2; lia).
    assert (0 < m / 2 ^ n) as Q by (apply Z.div_str_pos; lia).
    rewrite (Zdigits2_log2 _ Q).
    rewrite <- Z.shiftr_div_pow2 by lia.
    rewrite Z.log2_shiftr by lia. lia.
Qed.

Lemma round_nearest_even_cases m l :
  round_nearest_even m l = m \/ round_nearest_even m l = m + 1.
Proof.
  unfold round_nearest_even.
  destruct l as [|[| |]]; try destruct (Z.even m); auto.
Qed.

(** One more either keeps the digits or reaches the next power of 2. *)
Lemma Zdigits2_succ m :
  0 <= m ->
  Zdigits2 (m + 1) = Zdigits2 m
  \/ (m + 1 = 2 ^ Zdigits2 m /\ Zdigits2 (m + 1) = Zdigits2 m + 1).
Proof.
  intros M. destruct (Z.eq_dec m 0) as [->|NZ].
  - right. split; reflexivity.
  - assert (0 < m) as P by lia.
    rewrite (Zdigits2_log2 m P), (Zdigits2_log2 (m + 1)) by lia.
    change (m + 1) with (Z.succ m) at 1 3.
    replace (m + 1) with (Z.succ m) by lia.
    destruct (Z.log2_succ_or m) as [S|S].
    + right. split; [|lia].
      destruct (Z.log2_eq_succ_is_pow2 m S) as [b B].
      assert (0 <= b).
      { destruct (Z_lt_le_dec b 0) as [Neg|]; [|assumption].
        rewrite Z.pow_neg_r in B by exact Neg. lia. }
      rewrite B in S. rewrite Z.log2_pow2 in S by assumption.
      rewrite B. f_equal. lia.
    + left. lia.
Qed.

Lemma shr_m_record_of_loc m l : shr_m (shr_record_of_loc m l) = m.
Proof. destruct l as [|[| |]]; reflexivity. Qed.

Lemma shr_fexp_spec m e l :
  0 <= m -> e <= fexp 24 128 (Zdigits2 m + e) ->
  shr_m (fst (shr_fexp 24 128 m e l))
  = m / 2 ^ (fexp 24 128 (Zdigits2 m + e) - e)
  /\ snd (shr_fexp 24 128 m e l) = fexp 24 128 (Zdigits2 m + e).
Proof.
  intros M P. unfold shr_fexp.
  destruct (shr_spec (shr_record_of_loc m l) e
                     (fexp 24 128 (Zdigits2 m + e) - e)) as [A B].
  - rewrite shr_m_record_of_loc. exact M.
  - lia.
  - rewrite A, B, shr_m_record_of_loc. split; [reflexivity|lia].
Qed.

(** After a shift to the exponent [fexp] asks for, a mantissa that is
    not zero is canonical. *)
Lemma shifted_canonical m e p :
  0 < m -> e <= fexp 24 128 (Zdigits2 m + e) ->
  m / 2 ^ (fexp 24 128 (Zdigits2 m + e) - e) = Zpos p ->
  canonical_mantissa 24 128 p (fexp 24 128 (Zdigits2 m + e)) = true.
Proof.
  intros M P Q. unfold canonical_mantissa. apply Z.eqb_eq.
  change (Zpos (digits2_pos p)) with (Zdigits2 (Zpos p)).
  rewrite <- Q. rewrite Zdigits2_shift by lia.
  set (n := fexp 24 128 (Zdigits2 m + e) - e) in *.
  destruct (Z_lt_le_dec (Zdigits2 m) n) as [Lt|Ge].
  - exfalso.
    assert (m / 2 ^ n = 0); [|lia].
    apply Z.div_small. split; [lia|].
    rewrite (Zdigits2_log2 m M) in Lt.
    apply Z.log2_lt_pow2; lia.
  - rewrite Z.max_r by lia. f_equal. unfold n. lia.
Qed.

Lemma fexp_mono a b : a <= b -> fexp 24 128 a <= fexp 24 128 b.
Proof. unfold fexp, emin. lia. Qed.

(** [binary_round_aux] returns a valid number when the exponent it is
    given is at most the canonical one. *)
Lemma binary_round_aux_valid s m e l :
  0 < m -> e <= fexp 24 128 (Zdigits2 m + e) ->
  valid_binary 24 128 (binary_round_aux 24 128 s m e l) = true.
Proof.
  intros M P. unfold binary_round_aux.
  pose proof (shr_fexp_spec m e l ltac:(lia) P) as [A B].
  destruct (shr_fexp 24 128 m e l) as [mrs' e'] eqn:S1.
  cbn [fst snd] in A, B.
  set (E := fexp 24 128 (Zdigits2 m + e)) in *.
  set (m' := shr_m mrs') in *.
  assert (0 <= m') as M'.
  { rewrite A. apply Z.div_pos; [lia|]. apply pow2_pos. lia. }
  assert (E <= fexp 24 128 (Zdigits2 m' + E)) as C1.
  { destruct (Z.eq_dec m' 0) as [Z0|NZ].
    - rewrite Z0. simpl Zdigits2. unfold E, fexp, emin.
      assert (Zdigits2 m <= E - e); [|unfold E, fexp, emin in *; lia].
      destruct (Z_le_gt_dec (Zdigits2 m) (E - e)) as [|Ge]; [assumption|].
      exfalso. rewrite A in Z0.
      assert (2 ^ (E - e) <= m).
      { apply Z.log2_le_pow2; [lia|].
        rewrite (Zdigits2_log2 m M) in Ge. unfold E. lia. }
      assert (0 < m / 2 ^ (E - e)); [|lia].
      apply Z.div_str_pos. split; [apply pow2_pos; lia|assumption].
    - assert (Zdigits2 m' = Zdigits2 m - (E - e)) as D.
      { rewrite A, Zdigits2_shift by lia.
        pose proof (Zdigits2_nonneg (m / 2 ^ (E - e))) as N.
        rewrite Zdigits2_shift in N by lia.
        destruct (Z_lt_le_dec (Zdigits2 m - (E - e)) 1) as [Lt|Ge]; [|lia].
        exfalso. apply NZ. rewrite A. apply Z.div_small.
        split; [lia|]. rewrite (Zdigits2_log2 m M) in Lt.
        apply Z.log2_lt_pow2; lia. }
      rewrite D. replace (Zdigits2 m - (E - e) + E) with (Zdigits2 m + e) by lia.
      fold E. lia. }
  set (m1 := round_nearest_even m' (loc_of_shr_record mrs')).
  assert (0 <= m1) as M1 by (apply round_nearest_even_nonneg; exact M').
  assert (Zdigits2 m' <= Zdigits2 m1) as D1.
  { unfold m1.
    destruct (round_nearest_even_cases m' (loc_of_shr_record mrs')) as [->| ->];
      [lia|].
    destruct (Zdigits2_succ m' M') as [->|[_ ->]]; lia. }
  rewrite B.
  assert (E <= fexp 24 128 (Zdigits2 m1 + E)) as C2.
  { pose proof (fexp_mono (Zdigits2 m' + E) (Zdigits2 m1 + E) ltac:(lia)). lia. }
  pose proof (shr_fexp_spec m1 E loc_Exact M1 C2) as [A2 B2].
  destruct (shr_fexp 24 128 m1 E loc_Exact) as [mrs'' e''] eqn:S2.
  cbn [fst snd] in A2, B2.
  destruct (shr_m mrs'') as [|pf|pf] eqn:F; try reflexivity.
  destruct (e'' <=? 128 - 24) eqn:Le; [|reflexivity].
  cbn [valid_binary]. unfold bounded. rewrite Le, andb_true_r.
  rewrite B2. apply (shifted_canonical m1 E pf); [|exact C2|].
  - destruct (Z.eq_dec m1 0) as [Z1|]; [|lia].
    rewrite Z1 in A2. rewrite Z.div_0_l in A2; [lia|].
    pose proof (pow2_pos (fexp 24 128 (Zdigits2 0 + E) - E)). 
    rewrite Z1 in C2. lia.
  - rewrite <- A2. reflexivity.
Qed.

Lemma binary_round_valid s m e :
  valid_binary 24 128 (binary_round 24 128 s m e) = true.
Proof.
  unfold binary_round.
  set (E0 := fexp 24 128 (Zpos (digits2_pos m) + e)).
  unfold shl_align.
  destruct (E0 - e) as [|k|k] eqn:D.
  - apply binary_round_aux_valid; [lia|].
    cbn [Zdigits2]. fold E0. lia.
  - apply binary_round_aux_valid; [lia|].
    cbn [Zdigits2]. fold E0. lia.
  - apply binary_round_aux_valid; [lia|].
    cbn [Zdigits2].
    rewrite (digits_scaled (Pos.iter xO m k) m (Zpos k))
      by (lia || apply Zpos_iter_xO).
    replace (Zpos (digits2_pos m) + Zpos k + E0)
      with (Zpos (digits2_pos m) + e) by lia.
    fold E0. lia.
Qed.

Lemma binary_normalize_valid m e sz :
  valid_binary 24 128 (binary_normalize 24 128 m e sz) = true.
Proof.
  destruct m; [reflexivity|apply binary_round_valid|apply binary_round_valid].
Qed.

Lemma add_valid a c :
  valid_binary 24 128 a = true -> valid_binary 24 128 c = true ->
  valid_binary 24 128 (F32.add a c) = true.
Proof.
  intros A C. unfold F32.add, SFadd.
  destruct a as [sa|sa| |sa ma ea], c as [sc|sc| |sc mc ec];
    try destruct sa; try destruct sc; try reflexivity; try assumption.
  all: apply binary_normalize_valid.
Qed.

Lemma sub_valid a c :
  valid_binary 24 128 a = true -> valid_binary 24 128 c = true ->
  valid_binary 24 128 (F32.sub a c) = true.
Proof.
  intros A C. unfold F32.sub, SFsub.
  destruct a as [sa|sa| |sa ma ea], c as [sc|sc| |sc mc ec];
    try destruct sa; try destruct sc; try reflexivity; try assumption.
  all: apply binary_normalize_valid.
Qed.

Lemma mul_valid a c :
  valid_binary 24 128 a = true -> valid_binary 24 128 c = true ->
  valid_binary 24 128 (F32.mul a c) = true.
Proof.
  intros A C. unfold F32.mul, SFmul.
  destruct a as [sa|sa| |sa ma ea], c as [sc|sc| |sc mc ec]; try reflexivity.
  cbn [valid_binary] in A, C.
  pose proof (bounded_inv ma ea A) as (Ma & Ea & Da).
  pose proof (bounded_inv mc ec C) as (Mc & Ec & Dc).
  apply binary_round_aux_valid; [lia|].
  cbn [Zdigits2]. rewrite digits2_pos_log2, Pos2Z.inj_mul.
  pose proof (Z.log2_mul_below (Zpos ma) (Zpos mc) ltac:(lia) ltac:(lia)) as L.
  rewrite digits2_pos_log2 in Da, Dc.
  pose proof (Z.log2_nonneg (Zpos ma)). pose proof (Z.log2_nonneg (Zpos mc)).
  unfold fexp, emin. lia.
Qed.

Lemma binary_normalize_nonneg m e :
  0 <= m -> is_nonneg (binary_normalize 24 128 m e false) = true.
Proof.
  intros H. unfold binary_normalize, binary_round.
  destruct m as [|p|p]; [reflexivity| |lia].
  destruct (shl_align _ _ _) as [mz ez].
  apply binary_round_aux_nonneg. lia.
Qed.

Lemma add_nonneg a c :
  is_nonneg a = true -> is_nonneg c = true -> is_nonneg (F32.add a c) = true.
Proof.
  intros A C. unfold F32.add, SFadd.
  destruct a as [sa|sa| |sa ma ea], c as [sc|sc| |sc mc ec];
    try destruct sa; try destruct sc; try discriminate; try reflexivity.
  cbn [cond_Zopp]. apply binary_normalize_nonneg. lia.
Qed.

Lemma mul_nonneg a c :
  is_nonneg a = true -> is_nonneg c = true ->
  is_nan (F32.mul a c) = false -> is_nonneg (F32.mul a c) = true.
Proof.
  intros A C. unfold F32.mul, SFmul.
  destruct a as [sa|sa| |sa ma ea], c as [sc|sc| |sc mc ec];
    try destruct sa; try destruct sc; try discriminate; try reflexivity.
  intros _. cbn [xorb]. apply binary_round_aux_nonneg. lia.
Qed.

(** ** The heading after a call *)

(** The heading a call that returns true ends with, from the heading it
    starts with and the turn keys held at its end. *)
Lemma handle_events_heading cos sin realloc_ok dt win st win' st' :
  handle_events cos sin realloc_ok dt win st = Ret (true, win', st') ->
  angle (sprite st')
  = let a := angle (sprite st) in
    let a := if keyLeftPressed st'
             then fmodf (F32.add a (F32.mul ROTATION_INCREMENT dt)) f360
             else a in
    if keyRightPressed st'
    then fmodf (F32.add (F32.sub a (F32.mul ROTATION_INCREMENT dt)) f360) f360
    else a.
Proof.
  intros H. apply handle_events_Ret in H.
  destruct H as (st1 & P & _ & T). specialize (T eq_refl).
  apply poll_loop_at_rest in P. destruct P as (_ & _ & Pa & _).
  pose proof (level_blocks_controls _ _ _ _ _ _ _ T) as (KL & KR & _).
  rewrite (move_forward_angle _ _ _ _ _ _ _ T).
  destruct (rotate_left_controls dt st1) as (_ & LR & _).
  rewrite KL, KR. cbv zeta. rewrite <- Pa.
  unfold rotate_right. rewrite LR.
  destruct (keyRightPressed st1); unfold rotate_left;
    destruct (keyLeftPressed st1); reflexivity.
Qed.

(** Where [fmodf(s, 360.0f)] lies for a finite single-precision s. *)
Lemma wrap_range s :
  valid_binary 24 128 s = true -> is_finite s = true ->
  (is_nonneg s = true ->
   F32.leb f0 (fmodf s f360) = true /\ F32.ltb (fmodf s f360) f360 = true)
  /\ (is_nonneg s = false ->
      F32.leb (fmodf s f360) f0 = true
      /\ F32.ltb (F32.neg f360) (fmodf s f360) = true).
Proof.
  intros V F. destruct s as [sz|si| |[|] m e]; try discriminate.
  - split; [|discriminate]. intros _. destruct sz; split; reflexivity.
  - split; [discriminate|]. intros _. apply fmodf_360_range_neg. exact V.
  - split; [|discriminate]. intros _. apply fmodf_360_range. exact V.
Qed.

Lemma mul_90_not_nan dt : is_nonneg dt = true -> is_nan (F32.mul f90 dt) = false.
Proof.
  destruct dt as [sz|[|]| |[|] m e]; intros H; try discriminate; try reflexivity.
  unfold F32.mul, SFmul, f90. apply binary_round_aux_not_nan. lia.
Qed.

(** X16. A left turn keeps the heading in [0, 360).  In a call of
    [handle_events] that returns true with Left held and Right not held
    at its end: when the heading before the call and the frame time are
    single-precision numbers that are not negative, and their sum
    heading + 90 deltaTime does not overflow, the heading after the call
    is fmodf of that sum, at least 0 and below 360. *)
Theorem left_turn_heading_in_range
        (cos sin : spec_float -> spec_float) (realloc_ok : Z -> bool)
        (deltaTime : spec_float) (win : Z * Z) (st : Globals)
        (win' : Z * Z) (st' : Globals) :
  handle_events cos sin realloc_ok deltaTime win st
  = Ret (true, win', st') ->
  keyLeftPressed st' = true -> keyRightPressed st' = false ->
  valid_binary 24 128 (angle (sprite st)) = true ->
  is_nonneg (angle (sprite st)) = true ->
  valid_binary 24 128 deltaTime = true ->
  is_nonneg deltaTime = true ->
  is_finite (F32.add (angle (sprite st))
                     (F32.mul ROTATION_INCREMENT deltaTime)) = true ->
  angle (sprite st')
  = fmodf (F32.add (angle (sprite st))
                   (F32.mul ROTATION_INCREMENT deltaTime)) f360
  /\ F32.leb f0 (angle (sprite st')) = true
  /\ F32.ltb (angle (sprite st')) f360 = true.
Proof.
  intros H L R Va Na Vd Nd Fin.
  rewrite (handle_events_heading _ _ _ _ _ _ _ _ H), L, R. cbv zeta.
  split; [reflexivity|].
  set (p := F32.mul ROTATION_INCREMENT deltaTime) in *.
  assert (valid_binary 24 128 p = true) as Vp
      by (apply mul_valid; [reflexivity|exact Vd]).
  assert (is_nonneg p = true) as Np.
  { apply mul_nonneg; [reflexivity|exact Nd|].
    apply mul_90_not_nan. exact Nd. }
  apply wrap_range; [apply add_valid; assumption|exact Fin|].
  apply add_nonneg; assumption.
Qed.

(** X17. A right turn wraps correctly exactly as long as the sum it
    forms is not negative.  In a call of [handle_events] that returns
    true with Right held and Left not held at its end, for a heading and
    a frame time that are single-precision numbers, and a sum
    s = heading - 90 deltaTime + 360 that does not overflow: the heading
    after the call is fmodf(s, 360); it is in [0, 360) when s is not
    negative, and it is in (-360, 0] when s is negative. *)
Theorem right_turn_heading_range
        (cos sin : spec_float -> spec_float) (realloc_ok : Z -> bool)
        (deltaTime : spec_float) (win : Z * Z) (st : Globals)
        (win' : Z * Z) (st' : Globals) :
  handle_events cos sin realloc_ok deltaTime win st
  = Ret (true, win', st') ->
  keyLeftPressed st' = false -> keyRightPressed st' = true ->
  valid_binary 24 128 (angle (sprite st)) = true ->
  valid_binary 24 128 deltaTime = true ->
  let s := F32.add (F32.sub (angle (sprite st))
                            (F32.mul ROTATION_INCREMENT deltaTime)) f360 in
  is_finite s = true ->
  angle (sprite st') = fmodf s f360
  /\ (is_nonneg s = true ->
      F32.leb f0 (angle (sprite st')) = true
      /\ F32.ltb (angle (sprite st')) f360 = true)
  /\ (is_nonneg s = false ->
      F32.leb (angle (sprite st')) f0 = true
      /\ F32.ltb (F32.neg f360) (angle (sprite st')) = true).
Proof.
  intros H L R Va Vd s Fin.
  rewrite (handle_events_heading _ _ _ _ _ _ _ _ H), L, R. cbv zeta.
  fold s. split; [reflexivity|].
  apply wrap_range; [|exact Fin].
  unfold s. apply add_valid; [|reflexivity].
  apply sub_valid; [exact Va|].
  apply mul_valid; [reflexivity|exact Vd].
Qed.

Lemma left_turn_heading_in_range_witness :
  exists st',
    handle_events cos_at_zero sin_at_zero realloc_succeeds f1 (800, 800)
      (enqueue [SDL_KEYDOWN SDLK_LEFT]
               (with_heading (F32.of_int 350) started))
    = Ret (true, (800, 800), st')
    /\ angle (sprite st') = F32.of_int 80
    /\ F32.ltb (angle (sprite st')) f360 = true.
Proof.
  eexists. split; [reflexivity|].
  destruct (left_turn_heading_in_range
              cos_at_zero sin_at_zero realloc_succeeds f1 (800, 800)
              (enqueue [SDL_KEYDOWN SDLK_LEFT]
                       (with_heading (F32.of_int 350) started))
              (800, 800) _ eq_refl eq_refl eq_refl eq_refl eq_refl eq_refl
              eq_refl eq_refl) as (A & _ & B).
  split; [exact A|exact B].
Defined.

Lemma right_turn_heading_range_witness :
  exists st',
    handle_events cos_at_zero sin_at_zero realloc_succeeds (F32.of_int 5)
      (800, 800)
      (enqueue [SDL_KEYDOWN SDLK_RIGHT]
               (with_heading (F32.of_int 10) started))
    = Ret (true, (800, 800), st')
    /\ angle (sprite st') = F32.neg (F32.of_int 80)
    /\ F32.leb (angle (sprite st')) f0 = true.
Proof.
  eexists. split; [reflexivity|].
  destruct (right_turn_heading_range
              cos_at_zero sin_at_zero realloc_succeeds (F32.of_int 5)
              (800, 800)
              (enqueue [SDL_KEYDOWN SDLK_RIGHT]
                       (with_heading (F32.of_int 10) started))
              (800, 800) _ eq_refl eq_refl eq_refl eq_refl eq_refl eq_refl)
    as (A & _ & N).
  split; [exact A|]. apply N. reflexivity.
Defined.

(** * The conversion of the heading to radians *)

Section Faithful.

Variable prec emax : Z.
Hypothesis prec_pos : 0 < prec.

Lemma shr_fexp_shift m e l :
  0 <= m -> e <= fexp prec emax (Zdigits2 m + e) ->
  shr_m (fst (shr_fexp prec emax m e l))
  = m / 2 ^ (fexp prec emax (Zdigits2 m + e) - e)
  /\ snd (shr_fexp prec emax m e l) = fexp prec emax (Zdigits2 m + e).
Proof.
  intros M P. unfold shr_fexp.
  destruct (shr_spec (shr_record_of_loc m l) e
                     (fexp prec emax (Zdigits2 m + e) - e)) as [A B].
  - rewrite shr_m_record_of_loc. exact M.
  - lia.
  - rewrite A, B, shr_m_record_of_loc. split; [reflexivity|lia].
Qed.

Lemma Zdigits2_bounds m : 0 < m -> 2 ^ (Zdigits2 m - 1) <= m < 2 ^ Zdigits2 m.
Proof.
  intros M. rewrite (Zdigits2_log2 m M).
  replace (Z.log2 m + 1 - 1) with (Z.log2 m) by lia.
  replace (Z.log2 m + 1) with (Z.succ (Z.log2 m)) by lia.
  apply Z.log2_spec. exact M.
Qed.

(** [binary_round_aux] on a mantissa of at least [prec] digits, in the
    normal range: the result is the mantissa with its low digits cut
    off, or the next number of the format. *)
Lemma binary_round_aux_faithful s m e l :
  0 < m ->
  prec <= Zdigits2 m ->
  3 - emax - prec <= e + Zdigits2 m - prec ->
  e + Zdigits2 m - prec < emax - prec ->
  exists m' e',
    binary_round_aux prec emax s m e l = S754_finite s m' e'
    /\ Zdigits2 (Zpos m') = prec
    /\ e + (Zdigits2 m - prec) <= e' <= e + (Zdigits2 m - prec) + 1
    /\ (Zpos m' * 2 ^ (e' - e)
        = m / 2 ^ (Zdigits2 m - prec) * 2 ^ (Zdigits2 m - prec)
        \/ Zpos m' * 2 ^ (e' - e)
           = (m / 2 ^ (Zdigits2 m - prec) + 1) * 2 ^ (Zdigits2 m - prec)).
Proof.
  intros M D Lo Hi.
  set (n := Zdigits2 m - prec) in *.
  assert (0 <= n) as N by (unfold n; lia).
  assert (fexp prec emax (Zdigits2 m + e) = e + n) as FE.
  { unfold fexp, emin, n. lia. }
  unfold binary_round_aux.
  pose proof (shr_fexp_shift m e l ltac:(lia) ltac:(lia)) as [A B].
  destruct (shr_fexp prec emax m e l) as [mrs' e1] eqn:S1.
  cbn [fst snd] in A, B. rewrite FE in A, B.
  replace (e + n - e) with n in A by lia.
  remember (shr_m mrs') as m1 eqn:Hm1. clear Hm1.
  assert (Zdigits2 m1 = prec) as D1.
  { rewrite A, Zdigits2_shift by lia. unfold n. lia. }
  assert (0 < m1) as M1.
  { destruct (Z.eq_dec m1 0) as [Z0|]; [|rewrite A in *; 
      pose proof (Z.div_pos m (2 ^ n) ltac:(lia) (pow2_pos n N)); lia].
    rewrite Z0 in D1. cbn in D1. lia. }
  pose proof (pow2_pos n N) as Pn.
  remember (round_nearest_even m1 (loc_of_shr_record mrs')) as m2 eqn:Hm2.
  assert ((m2 = m1 /\ Zdigits2 m2 = prec)
          \/ (m2 = m1 + 1 /\ Zdigits2 m2 = prec)
          \/ (m2 = m1 + 1 /\ m2 = 2 ^ prec /\ Zdigits2 m2 = prec + 1)) as C.
  { rewrite Hm2.
    destruct (round_nearest_even_cases m1 (loc_of_shr_record mrs')) as [->| ->].
    - left. split; [reflexivity|exact D1].
    - right. destruct (Zdigits2_succ m1 ltac:(lia)) as [Q|[Q1 Q2]].
      + left. split; [reflexivity|]. rewrite Q. exact D1.
      + right. split; [reflexivity|].
        split; [rewrite Q1, D1|rewrite Q2, D1]; reflexivity. }
  clear Hm2.
  assert (0 < m2) as M2 by (destruct C as [[-> _]|[[-> _]|[-> _]]]; lia).
  subst e1.
  destruct C as [[E2 D2]|[[E2 D2]|[E2 [P2 D2]]]].
  - assert (fexp prec emax (Zdigits2 m2 + (e + n)) = e + n) as F2.
    { unfold fexp, emin. rewrite D2. unfold n. lia. }
    pose proof (shr_fexp_shift m2 (e + n) loc_Exact ltac:(lia) ltac:(lia))
      as [A2 B2].
    destruct (shr_fexp prec emax m2 (e + n) loc_Exact) as [mrs2 e2] eqn:S2.
    cbn [fst snd] in A2, B2. rewrite F2 in A2, B2.
    rewrite Z.sub_diag, Z.pow_0_r, Z.div_1_r in A2.
    rewrite A2. destruct m2 as [|p2|p2]; try lia.
    subst e2.
    assert ((e + n <=? emax - prec) = true) as Le by (apply Z.leb_le; unfold n; lia).
    rewrite Le. exists p2, (e + n).
    split; [reflexivity|]. split; [exact D2|]. split; [lia|].
    left. replace (e + n - e) with n by lia. rewrite E2, A. reflexivity.
  - assert (fexp prec emax (Zdigits2 m2 + (e + n)) = e + n) as F2.
    { unfold fexp, emin. rewrite D2. unfold n. lia. }
    pose proof (shr_fexp_shift m2 (e + n) loc_Exact ltac:(lia) ltac:(lia))
      as [A2 B2].
    destruct (shr_fexp prec emax m2 (e + n) loc_Exact) as [mrs2 e2] eqn:S2.
    cbn [fst snd] in A2, B2. rewrite F2 in A2, B2.
    rewrite Z.sub_diag, Z.pow_0_r, Z.div_1_r in A2.
    rewrite A2. destruct m2 as [|p2|p2]; try lia.
    subst e2.
    assert ((e + n <=? emax - prec) = true) as Le by (apply Z.leb_le; unfold n; lia).
    rewrite Le. exists p2, (e + n).
    split; [reflexivity|]. split; [exact D2|]. split; [lia|].
    right. replace (e + n - e) with n by lia. rewrite E2, A. reflexivity.
  - assert (fexp prec emax (Zdigits2 m2 + (e + n)) = e + n + 1) as F2.
    { unfold fexp, emin. rewrite D2. unfold n. lia. }
    pose proof (shr_fexp_shift m2 (e + n) loc_Exact ltac:(lia) ltac:(lia))
      as [A2 B2].
    destruct (shr_fexp prec emax m2 (e + n) loc_Exact) as [mrs2 e2] eqn:S2.
    cbn [fst snd] in A2, B2. rewrite F2 in A2, B2.
    replace (e + n + 1 - (e + n)) with 1 in A2 by lia.
    assert (m2 / 2 ^ 1 = 2 ^ (prec - 1)) as Half.
    { rewrite P2. replace prec with (prec - 1 + 1) at 1 by lia.
      rewrite Z.pow_add_r by lia. apply Z.div_mul. lia. }
    rewrite Half in A2.
    pose proof (pow2_pos (prec - 1) ltac:(lia)) as Pp.
    rewrite A2. destruct (2 ^ (prec - 1)) as [|pf|pf] eqn:EP; try lia.
    subst e2.
    assert ((e + n + 1 <=? emax - prec) = true) as Le
        by (apply Z.leb_le; unfold n; lia).
    rewrite Le. exists pf, (e + n + 1).
    split; [reflexivity|]. split.
    { rewrite <- EP. rewrite Zdigits2_log2 by lia.
      rewrite Z.log2_pow2 by lia. lia. }
    split; [lia|].
    right. replace (e + n + 1 - e) with (n + 1) by lia.
    rewrite <- EP, <- A, <- E2, P2.
    rewrite <- !Z.pow_add_r by lia. f_equal. lia.
Qed.

(** The same in relative terms.  The mantissa [q] given to
    [binary_round_aux] is the integer part of an exact value N / D; the
    result differs from N / D by less than one unit of the last place:
    by at most N / D divided by 2^(prec - 1). *)
Lemma binary_round_aux_relative s q e l N D :
  0 < q ->
  prec <= Zdigits2 q ->
  3 - emax - prec <= e + Zdigits2 q - prec ->
  e + Zdigits2 q - prec < emax - prec ->
  0 < D -> q * D <= N < (q + 1) * D ->
  exists m' e',
    binary_round_aux prec emax s q e l = S754_finite s m' e'
    /\ Zdigits2 (Zpos m') = prec
    /\ e + (Zdigits2 q - prec) <= e' <= e + (Zdigits2 q - prec) + 1
    /\ (2 ^ (prec - 1) - 1) * N
       <= 2 ^ (prec - 1) * (Zpos m' * 2 ^ (e' - e) * D)
       <= (2 ^ (prec - 1) + 1) * N.
Proof.
  intros Q Dg Lo Hi Dpos [NL NH].
  destruct (binary_round_aux_faithful s q e l Q Dg Lo Hi)
    as (m' & e' & R & Dm & Er & V).
  exists m', e'. split; [exact R|]. split; [exact Dm|]. split; [exact Er|].
  set (n := Zdigits2 q - prec) in *.
  assert (0 <= n) as Nn by (unfold n; lia).
  pose proof (pow2_pos n Nn) as Tn.
  pose proof (pow2_pos (prec - 1) ltac:(lia)) as Pp.
  pose proof (Zdigits2_bounds q Q) as [QL _].
  replace (Zdigits2 q - 1) with (prec - 1 + n) in QL by (unfold n; lia).
  rewrite Z.pow_add_r in QL by lia.
  pose proof (Z.div_mod q (2 ^ n) ltac:(lia)) as DM.
  pose proof (Z.mod_pos_bound q (2 ^ n) Tn) as MB.
  set (F := q / 2 ^ n) in *. set (T := 2 ^ n) in *.
  set (P := 2 ^ (prec - 1)) in *.
  set (V0 := Zpos m' * 2 ^ (e' - e)) in *.
  assert (P * T * D <= N) as Big.
  { apply Z.le_trans with (q * D); [|exact NL].
    apply Z.mul_le_mono_nonneg_r; lia. }
  destruct V as [V|V]; rewrite V.
  - assert (F * T * D <= N) as L1.
    { apply Z.le_trans with (q * D); [|exact NL].
      apply Z.mul_le_mono_nonneg_r; lia. }
    assert (N < F * T * D + T * D) as L2.
    { apply Z.lt_le_trans with ((q + 1) * D); [exact NH|].
      replace (F * T * D + T * D) with ((F * T + T) * D) by ring.
      apply Z.mul_le_mono_nonneg_r; lia. }
    assert (P * (N - F * T * D) <= P * (T * D)) as L3.
    { apply Z.mul_le_mono_nonneg_l; lia. }
    split; nia.
  - assert (N <= (F + 1) * T * D) as L1.
    { apply Z.le_trans with ((q + 1) * D); [lia|].
      apply Z.mul_le_mono_nonneg_r; [lia|]. nia. }
    assert ((F + 1) * T * D - N <= T * D) as L2.
    { assert ((F + 1) * T * D - q * D <= T * D); [|lia].
      replace ((F + 1) * T * D - q * D) with (((F + 1) * T - q) * D) by ring.
      apply Z.mul_le_mono_nonneg_r; lia. }
    assert (P * ((F + 1) * T * D - N) <= P * (T * D)) as L3.
    { apply Z.mul_le_mono_nonneg_l; lia. }
    split; nia.
Qed.

End Faithful.

(** ** Degrees to radians in double precision *)

Lemma Zdigits2_range q a :
  0 <= a -> 2 ^ a <= q < 2 ^ (a + 2) -> a + 1 <= Zdigits2 q <= a + 2.
Proof.
  intros A [L H].
  assert (0 < q) as Q by (pose proof (pow2_pos a A); lia).
  rewrite (Zdigits2_log2 q Q).
  assert (a <= Z.log2 q) by (apply Z.log2_le_pow2; assumption).
  assert (Z.log2 q < a + 2) by (apply Z.log2_lt_pow2; assumption).
  lia.
Qed.

(** The conversion of a [float] to [double] is exact, and its result is
    a normal number. *)
Lemma of_float_normal s m e :
  bounded 24 128 m e = true ->
  exists m0 e0,
    F64.of_float (S754_finite s m e) = S754_finite s m0 e0
    /\ Zdigits2 (Zpos m0) = 53
    /\ -201 <= e0 <= 75
    /\ Zpos m0 * 2 ^ (e0 + 1200) = Zpos m * 2 ^ (e + 1200).
Proof.
  intros B. destruct (bounded_inv m e B) as (M & E & _).
  pose proof (digits_le_24 m M) as Dm.
  set (k := 53 - Zpos (digits2_pos m)).
  assert (0 <= k) as K by (unfold k; lia).
  pose proof (pow2_pos k K) as Pk.
  assert (Zpos (Z.to_pos (Zpos m * 2 ^ k)) = Zpos m * 2 ^ k) as Em.
  { apply Z2Pos.id. lia. }
  assert (Zpos (digits2_pos (Z.to_pos (Zpos m * 2 ^ k))) = 53) as Dk.
  { rewrite (digits_scaled _ m k K Em). unfold k. lia. }
  exists (Z.to_pos (Zpos m * 2 ^ k)), (e - k).
  split; [|split; [exact Dk|split; [unfold k; lia|]]].
  - cbn [F64.of_float]. unfold F64.prec, F64.emax.
    apply binary_round_exact.
    + unfold bounded, canonical_mantissa. apply andb_true_intro. split.
      * apply Z.eqb_eq. rewrite Dk. unfold fexp, emin, k. lia.
      * apply Z.leb_le. unfold k. lia.
    + right. split; [lia|]. rewrite Em. f_equal. f_equal. lia.
  - rewrite Em, <- Z.mul_assoc, <- Z.pow_add_r by (unfold k; lia).
    f_equal. f_equal. lia.
Qed.

(** The product with [M_PI] = 7074237752028440 / 2^51 differs from the
    exact product by at most its 2^52-th part. *)
Lemma mul_M_PI_relative s m0 e0 :
  Zdigits2 (Zpos m0) = 53 -> -201 <= e0 <= 75 ->
  exists mp ep,
    F64.mul (S754_finite s m0 e0) F64.M_PI = S754_finite s mp ep
    /\ Zdigits2 (Zpos mp) = 53
    /\ -200 <= ep <= 78
    /\ (2 ^ 52 - 1) * (Zpos m0 * 2 ^ (e0 + 1200) * 7074237752028440)
       <= 2 ^ 52 * (Zpos mp * 2 ^ (ep + 1200) * 2 ^ 51)
       <= (2 ^ 52 + 1) * (Zpos m0 * 2 ^ (e0 + 1200) * 7074237752028440).
Proof.
  intros D0 E0.
  pose proof (Zdigits2_bounds (Zpos m0) ltac:(lia)) as B0.
  rewrite D0 in B0. change (53 - 1) with 52 in B0.
  unfold F64.mul, F64.M_PI, SFmul. rewrite xorb_false_r.
  set (q := Zpos (m0 * 7074237752028440)).
  assert (q = Zpos m0 * 7074237752028440) as Eq by reflexivity.
  assert (105 <= Zdigits2 q <= 106) as Dq.
  { apply (Zdigits2_range q 104); [lia|]. rewrite Eq.
    change (104 + 2) with 106.
    change (2 ^ 104) with (2 ^ 52 * 4503599627370496).
    change (2 ^ 106) with (2 ^ 53 * 9007199254740992).
    split; nia. }
  destruct (binary_round_aux_relative 53 1024 ltac:(lia) s q (e0 + -51)
              loc_Exact q 1) as (mp & ep & R & Dp & Ep & V);
    try (unfold F64.prec, F64.emax); try lia.
  exists mp, ep. split; [exact R|]. split; [exact Dp|]. split; [lia|].
  change (53 - 1) with 52 in V.
  rewrite Z.mul_1_r in V.
  assert (0 < 2 ^ (e0 + 1200)) as P0 by (apply pow2_pos; lia).
  assert (Zpos mp * 2 ^ (ep + 1200) * 2 ^ 51
          = Zpos mp * 2 ^ (ep - (e0 + -51)) * 2 ^ (e0 + 1200)) as Em.
  { rewrite <- !Z.mul_assoc, <- !Z.pow_add_r by lia.
    f_equal. f_equal. lia. }
  rewrite Em.
  set (X := Zpos mp * 2 ^ (ep - (e0 + -51))) in *.
  set (T := 2 ^ (e0 + 1200)) in *.
  set (A := 2 ^ 52) in *.
  replace (Zpos m0 * T * 7074237752028440) with (q * T) by (rewrite Eq; ring).
  destruct V as [V1 V2]. split.
  - replace ((A - 1) * (q * T)) with ((A - 1) * q * T) by ring.
    replace (A * (X * T)) with (A * X * T) by ring.
    apply Z.mul_le_mono_nonneg_r; lia.
  - replace ((A + 1) * (q * T)) with ((A + 1) * q * T) by ring.
    replace (A * (X * T)) with (A * X * T) by ring.
    apply Z.mul_le_mono_nonneg_r; lia.
Qed.

(** 180.0f as a [double]. *)
Lemma d180_value : F64.of_float f180 = S754_finite false 6333186975989760 (-45).
Proof. reflexivity. Qed.

(** The quotient by 180 differs from the exact quotient by at most its
    2^52-th part. *)
Lemma div_180_relative s mp ep :
  Zdigits2 (Zpos mp) = 53 -> -200 <= ep <= 78 ->
  exists mr er,
    F64.div (S754_finite s mp ep) (F64.of_float f180) = S754_finite s mr er
    /\ (2 ^ 52 - 1) * (Zpos mp * 2 ^ (ep + 1200))
       <= 2 ^ 52 * (Zpos mr * 2 ^ (er + 1200) * 180)
       <= (2 ^ 52 + 1) * (Zpos mp * 2 ^ (ep + 1200))
    /\ -208 <= er.
Proof.
  intros Dp Ep.
  pose proof (Zdigits2_bounds (Zpos mp) ltac:(lia)) as Bp.
  rewrite Dp in Bp. change (53 - 1) with 52 in Bp.
  rewrite d180_value. unfold F64.div, SFdiv. rewrite xorb_false_r.
  unfold SFdiv_core_binary. rewrite Dp.
  change (Zdigits2 6333186975989760) with 53.
  assert (Z.min (fexp F64.prec F64.emax (53 + ep - (53 + -45))) (ep - -45)
          = ep - 8) as E1.
  { unfold fexp, emin, F64.prec, F64.emax. lia. }
  rewrite E1. replace (ep - -45 - (ep - 8)) with 53 by lia.
  cbv iota. rewrite Z.shiftl_mul_pow2 by lia.
  set (N := Zpos mp * 2 ^ 53).
  set (md := 6333186975989760).
  pose proof (Z_div_mod N md ltac:(unfold md; lia)) as DM.
  destruct (Z.div_eucl N md) as [q r]. destruct DM as [DM RB].
  assert (2 ^ 52 <= q < 2 ^ 54) as Bq.
  { change (2 ^ 53) with 9007199254740992 in *.
    change (2 ^ 52) with 4503599627370496 in *.
    change (2 ^ 54) with 18014398509481984.
    unfold N, md in *. nia. }
  assert (53 <= Zdigits2 q <= 54) as Dq.
  { apply (Zdigits2_range q 52); [lia|exact Bq]. }
  destruct (binary_round_aux_relative 53 1024 ltac:(lia) s q (ep - 8)
              (new_location md r) N md) as (mr & er & R & _ & Er & V);
    try (unfold F64.prec, F64.emax, md); try lia.
  exists mr, er. split; [exact R|]. split; [|lia].
  change (53 - 1) with 52 in V.
  assert (0 < 2 ^ (ep + 1147)) as P0 by (apply pow2_pos; lia).
  assert (Zpos mp * 2 ^ (ep + 1200) = N * 2 ^ (ep + 1147)) as EN.
  { unfold N. rewrite <- !Z.mul_assoc, <- !Z.pow_add_r by lia.
    f_equal. f_equal. lia. }
  assert (Zpos mr * 2 ^ (er + 1200) * 180
          = Zpos mr * 2 ^ (er - (ep - 8)) * md * 2 ^ (ep + 1147)) as ER.
  { unfold md. change 6333186975989760 with (180 * 2 ^ 45).
    replace (er + 1200) with (er - (ep - 8) + (45 + (ep + 1147))) by lia.
    rewrite !Z.pow_add_r by lia. ring. }
  rewrite EN, ER.
  set (X := Zpos mr * 2 ^ (er - (ep - 8)) * md) in *.
  set (T := 2 ^ (ep + 1147)) in *.
  set (A := 2 ^ 52) in *.
  destruct V as [V1 V2]. split.
  - replace ((A - 1) * (N * T)) with ((A - 1) * N * T) by ring.
    replace (A * (X * T)) with (A * X * T) by ring.
    apply Z.mul_le_mono_nonneg_r; lia.
  - replace ((A + 1) * (N * T)) with ((A + 1) * N * T) by ring.
    replace (A * (X * T)) with (A * X * T) by ring.
    apply Z.mul_le_mono_nonneg_r; lia.
Qed.

(** Two relative errors of 2^-52 and the error of [M_PI] / 180 against
    0.017453292519943295 stay within 10^-17. *)
Lemma radians_error H P R :
  0 <= H -> 0 <= P -> 0 <= R ->
  (2 ^ 52 - 1) * (H * 7074237752028440) <= 2 ^ 52 * (P * 2 ^ 51)
  <= (2 ^ 52 + 1) * (H * 7074237752028440) ->
  (2 ^ 52 - 1) * P <= 2 ^ 52 * (R * 180) <= (2 ^ 52 + 1) * P ->
  3490658503988657 * H <= 2 * 10 ^ 17 * R <= 3490658503988661 * H.
Proof.
  intros H0 P0 R0 [M1 M2] [D1 D2].
  set (a := 2 ^ 52 - 1) in *. set (b := 2 ^ 52) in *. set (c := 2 ^ 52 + 1) in *.
  set (M := 7074237752028440) in *. set (E := 2 ^ 51) in *.
  set (K := 2 * 10 ^ 17). set (W := b * b * 180 * E).
  assert (0 < W) as Wpos by (vm_compute; reflexivity).
  assert (0 <= a) as A0 by (vm_compute; discriminate).
  assert (0 <= b) as B0 by (vm_compute; discriminate).
  assert (0 <= c) as C0 by (vm_compute; discriminate).
  assert (0 <= E) as E0 by (vm_compute; discriminate).
  assert (0 <= K) as K0 by (vm_compute; discriminate).
  assert (K * (c * c * M) <= 3490658503988661 * W) as NU
      by (vm_compute; discriminate).
  assert (3490658503988657 * W <= K * (a * a * M)) as NL
      by (vm_compute; discriminate).
  split.
  - apply (Z.mul_le_mono_pos_r _ _ W Wpos).
    apply Z.le_trans with (K * (a * a * M) * H).
    { replace (3490658503988657 * H * W) with (3490658503988657 * W * H) by ring.
      apply Z.mul_le_mono_nonneg_r; assumption. }
    apply Z.le_trans with (K * (a * (b * (P * E)))).
    { replace (K * (a * a * M) * H) with (K * (a * (a * (H * M)))) by ring.
      apply Z.mul_le_mono_nonneg_l; [exact K0|].
      apply Z.mul_le_mono_nonneg_l; [exact A0|exact M1]. }
    replace (K * (a * (b * (P * E)))) with (K * (b * E * (a * P))) by ring.
    replace (K * R * W) with (K * (b * E * (b * (R * 180)))) by (unfold W; ring).
    apply Z.mul_le_mono_nonneg_l; [exact K0|].
    apply Z.mul_le_mono_nonneg_l; [|exact D1].
    apply Z.mul_nonneg_nonneg; assumption.
  - apply (Z.mul_le_mono_pos_r _ _ W Wpos).
    apply Z.le_trans with (K * (c * c * M) * H).
    2:{ replace (3490658503988661 * H * W) with (3490658503988661 * W * H) by ring.
        apply Z.mul_le_mono_nonneg_r; assumption. }
    apply Z.le_trans with (K * (c * (b * (P * E)))).
    2:{ replace (K * (c * c * M) * H) with (K * (c * (c * (H * M)))) by ring.
        apply Z.mul_le_mono_nonneg_l; [exact K0|].
        apply Z.mul_le_mono_nonneg_l; [exact C0|exact M2]. }
    replace (K * (c * (b * (P * E)))) with (K * (b * E * (c * P))) by ring.
    replace (K * R * W) with (K * (b * E * (b * (R * 180)))) by (unfold W; ring).
    apply Z.mul_le_mono_nonneg_l; [exact K0|].
    apply Z.mul_le_mono_nonneg_l; [|exact D2].
    apply Z.mul_nonneg_nonneg; assumption.
Qed.

(** Half a turn is [M_PI] and a quarter turn is half of it. *)
Example radians_half_turn :
  radians f180 = F64.M_PI
  /\ radians f90 = S754_finite false 7074237752028440 (-52).
Proof. split; reflexivity. Qed.

(** The argument [update_location] hands to [cos] and [sin] is the
    heading in radians. *)
Lemma radians_pinned a :
  valid_binary 24 128 a = true -> is_radians_of a (radians a).
Proof.
  intros V. destruct a as [s|s| |s m e].
  - destruct s; split; vm_compute; first [reflexivity | discriminate].
  - destruct s; reflexivity.
  - reflexivity.
  - cbn [valid_binary] in V. cbn [is_radians_of].
    destruct (of_float_normal s m e V) as (m0 & e0 & C0 & D0 & E0 & V0).
    destruct (mul_M_PI_relative s m0 e0 D0 E0) as (mp & ep & C1 & D1 & E1 & V1).
    destruct (div_180_relative s mp ep D1 E1) as (mr & er & C2 & V2 & E2).
    unfold radians. rewrite C0, C1, C2. split; [reflexivity|].
    cbn [scaled]. rewrite V0 in V1.
    assert (0 < 2 ^ (e + 1200)) as Q0
        by (apply pow2_pos; destruct (bounded_inv m e V); lia).
    assert (0 < 2 ^ (ep + 1200)) as Q1 by (apply pow2_pos; lia).
    assert (0 < 2 ^ (er + 1200)) as Q2 by (apply pow2_pos; lia).
    pose proof (radians_error (Zpos m * 2 ^ (e + 1200))
                  (Zpos mp * 2 ^ (ep + 1200)) (Zpos mr * 2 ^ (er + 1200))
                  ltac:(lia) ltac:(lia) ltac:(lia) V1 V2) as [L U].
    set (Hd := Zpos m * 2 ^ (e + 1200)) in *.
    set (Rd := Zpos mr * 2 ^ (er + 1200)) in *.
    assert (0 <= Hd) as Hd0 by (unfold Hd; lia).
    change (2 * 10 ^ 17) with 200000000000000000 in *.
    destruct s; cbn [cond_Zopp]; lia.
Qed.

(** ** Forward movement along the heading *)

(** C4. [update_location] adds to the position the displacement
    dx = 200 cos(heading) deltaTime, dy = -200 sin(heading) deltaTime and
    clamps the sum, where the angle handed to cos and sin is the heading
    in radians: the heading times pi / 180, with an error of at most
    10^-17 times the heading, for every heading a [float] can hold.
    With cos 0 = 1 and sin 0 = 0, a marker at
    (400, 400) in an 800 x 800 window, heading 0, pen down, Up held and
    no turn key held, is moved by a frame of one second to (600, 400),
    and exactly the segment (400, 400)-(600, 400) in the marker's colour
    is appended to the trail (the trail array having room or being able
    to grow). *)
Theorem forward_one_second
        (cos sin : spec_float -> spec_float) (realloc_ok : Z -> bool)
        (st : Globals) :
  (valid_binary 24 128 (angle (sprite st)) = true ->
   exists rad,
     is_radians_of (angle (sprite st)) rad
     /\ forall dt w h,
         sprite (update_location cos sin dt w h st)
         = set_xy (clamp w (F32.add (x (sprite st)) (advance_dx cos rad dt)))
                  (clamp h (F32.add (y (sprite st)) (advance_dy sin rad dt)))
                  (sprite st))
  /\ (cos f0 = d1 -> sin f0 = f0 ->
      x (sprite st) = f400 -> y (sprite st) = f400 ->
      angle (sprite st) = f0 -> pen (sprite st) = true ->
      event_queue st = [] ->
      keyUpPressed st = true ->
      keyLeftPressed st = false -> keyRightPressed st = false ->
      room_or_grows realloc_ok st ->
      exists st',
        handle_events cos sin realloc_ok f1 (800, 800) st
        = Ret (true, (800, 800), st')
        /\ sprite st' = set_xy f600 f400 (sprite st)
        /\ lines st'
           = lines st ++ [mkLine f400 f400 f600 f400
                                 (r (sprite st)) (g (sprite st)) (b (sprite st))]).
Proof.
  split.
  { intros V. exists (radians (angle (sprite st))).
    split; [apply radians_pinned; assumption|].
    intros dt w h. reflexivity. }
  intros Hcos Hsin Hx Hy Ha Hp Hq Hu Hl Hr Hroom.
  assert (displacement_x cos f0 f1 = f200) as Dx.
  { unfold displacement_x. rewrite radians_zero, Hcos. reflexivity. }
  assert (displacement_y sin f0 f1 = S754_zero true) as Dy.
  { unfold displacement_y. rewrite radians_zero, Hsin. reflexivity. }
  rewrite handle_events_no_quit by (rewrite Hq; reflexivity).
  rewrite Hq. unfold apply_events. cbn [fold_left fst snd].
  set (st0 := set_event_queue [] st).
  rewrite (rotate_left_off f1 st0 Hl).
  rewrite (rotate_right_off f1 st0 Hr).
  rewrite (move_forward_pen_down cos sin realloc_ok f1 (800, 800) st0 Hu Hp).
  cbn [fst snd].
  set (st1 := update_location cos sin f1 800 800 st0).
  assert (sprite st1 = set_xy f600 f400 (sprite st)) as S1.
  { unfold st1. rewrite update_location_clamp.
    change (sprite st0) with (sprite st).
    rewrite Hx, Hy, Ha, Dx, Dy. reflexivity. }
  destruct (add_line_returns realloc_ok (x (sprite st0)) (y (sprite st0))
              (x (sprite st1)) (y (sprite st1)) st1 Hroom) as [st' A].
  exists st'. rewrite A.
  apply add_line_Ret in A. destruct A as [A1 A2].
  split; [reflexivity|]. split; [congruence|].
  rewrite A2, S1.
  change (sprite st0) with (sprite st). rewrite Hx, Hy. reflexivity.
Qed.

Lemma forward_one_second_witness :
  (exists rad,
      is_radians_of f90 rad
      /\ forall dt w h,
          sprite (update_location cos_at_zero sin_at_zero dt w h
                    (with_heading f90 scenario_state))
          = set_xy (clamp w (F32.add f400 (advance_dx cos_at_zero rad dt)))
                   (clamp h (F32.add f400 (advance_dy sin_at_zero rad dt)))
                   (sprite (with_heading f90 scenario_state)))
  /\ exists st',
      handle_events cos_at_zero sin_at_zero realloc_succeeds f1 (800, 800)
                    scenario_state
      = Ret (true, (800, 800), st')
      /\ sprite st' = set_xy f600 f400 (sprite scenario_state)
      /\ lines st' = [mkLine f400 f400 f600 f400 f0 f0 f0].
Proof.
  split.
  - apply (proj1 (forward_one_second cos_at_zero sin_at_zero realloc_succeeds
                    (with_heading f90 scenario_state))); reflexivity.
  - apply (proj2 (forward_one_second cos_at_zero sin_at_zero realloc_succeeds
                    scenario_state));
      try reflexivity.
    left. vm_compute. reflexivity.
Defined.

(** * The fatal path *)

Lemma add_line_Exit_full realloc_ok ax1 ay1 ax2 ay2 st code :
  add_line realloc_ok ax1 ay1 ax2 ay2 st = Exit code ->
  lineCapacity st <= lineCount st.
Proof.
  unfold add_line.
  destruct (lineCount st >=? lineCapacity st) eqn:G; cbn [bind];
    [|discriminate].
  intros _. rewrite Z.geb_leb in G. apply Z.leb_le in G. exact G.
Qed.

(** X18. [handle_events] ends the process only through the growth of
    the trail array: when it exits, the status is 1, the array was full
    and [realloc] refused the request made of it, which is for the
    doubled capacity as an [int] times [sizeof(Line)] as a [size_t];
    when the doubled capacity is an [int], that is the doubled size in
    bytes.  With room in the array the call always returns. *)
Theorem handle_events_exits_only_on_failed_growth
        (cos sin : spec_float -> spec_float) (realloc_ok : Z -> bool)
        (deltaTime : spec_float) (win : Z * Z) (st : Globals) :
  (forall code,
      handle_events cos sin realloc_ok deltaTime win st = Exit code ->
      code = 1
      /\ lineCapacity st <= lineCount st
      /\ realloc_ok (to_size_t (to_size_t (to_int (lineCapacity st * 2))
                                * sizeof_Line)) = false
      /\ (0 <= lineCapacity st -> lineCapacity st * 2 <= INT_MAX ->
          realloc_ok (lineCapacity st * 2 * sizeof_Line) = false))
  /\ (lineCount st < lineCapacity st ->
      exists res, handle_events cos sin realloc_ok deltaTime win st = Ret res).
Proof.
  assert (forall code,
             handle_events cos sin realloc_ok deltaTime win st = Exit code ->
             code = 1
             /\ lineCapacity st <= lineCount st
             /\ realloc_ok (to_size_t (to_size_t (to_int (lineCapacity st * 2))
                                       * sizeof_Line)) = false) as E.
  { intros code. unfold handle_events.
    destruct (poll_loop (event_queue st) win st) as [[c win1] st1] eqn:P.
    apply poll_loop_at_rest in P. destruct P as (_ & _ & _ & Pl & Pc).
    destruct c; [|discriminate].
    destruct (move_forward _ _ _ _ _ _) as [st2|c] eqn:M; cbn [bind];
      [discriminate|].
    intros [= <-]. revert M. unfold move_forward.
    destruct (keyUpPressed _); [|discriminate].
    destruct (pen _); [|discriminate].
    intros M.
    pose proof (add_line_Exit_full _ _ _ _ _ _ _ M) as F.
    apply add_line_Exit in M. destruct M as [-> M].
    destruct (rotate_left_rest deltaTime st1) as (_ & _ & L2 & C2).
    destruct (rotate_right_rest deltaTime (rotate_left deltaTime st1))
      as (_ & _ & L3 & C3).
    unfold lineCount in *.
    cbn [lines lineCapacity update_location set_sprite] in F, M.
    rewrite L3, L2, Pl in F. rewrite C3, C2, Pc in F, M.
    split; [reflexivity|]. split; assumption. }
  split.
  - intros code H. destruct (E code H) as (C & F & R).
    split; [exact C|]. split; [exact F|]. split; [exact R|].
    intros H0 H1.
    destruct (grown_capacity_exact _ H0 H1) as [E1 E2].
    rewrite E1, E2 in R. exact R.
  - intros Room.
    destruct (handle_events cos sin realloc_ok deltaTime win st)
      as [res|c] eqn:H.
    + exists res. reflexivity.
    + destruct (E c eq_refl) as (_ & F & _). lia.
Qed.

Lemma handle_events_exits_only_on_failed_growth_witness :
  handle_events cos_at_zero sin_at_zero realloc_fails f1 (800, 800) full_state
  = Exit 1
  /\ lineCapacity full_state <= lineCount full_state
  /\ realloc_fails (lineCapacity full_state * 2 * sizeof_Line) = false
  /\ exists res,
      handle_events cos_at_zero sin_at_zero realloc_fails f1 (800, 800)
                    scenario_state = Ret res.
Proof.
  destruct (handle_events_exits_only_on_failed_growth
              cos_at_zero sin_at_zero realloc_fails f1 (800, 800) full_state)
    as [E _].
  destruct (E 1) as (_ & F & _ & R); [vm_compute; reflexivity|].
  split; [vm_compute; reflexivity|]. split; [exact F|].
  split; [apply R; vm_compute; discriminate|].
  apply (proj2 (handle_events_exits_only_on_failed_growth
                  cos_at_zero sin_at_zero realloc_fails f1 (800, 800)
                  scenario_state)).
  vm_compute. reflexivity.
Defined.
